(** * dataserv-client: the farming client of [dataserv_client/api.py]

    A shallow embedding of [api.py]: the checkpoint callback
    [_on_generate_shard] and the methods of [Client]
    ([_init_messenger], [register], [config], [ping], [poll], [build],
    [farm]), followed by the properties of the specification that
    concern them.

    The client talks to collaborators that live outside [api.py]: the
    messenger ([messaging.Messaging]), the shard builder
    ([builder.Builder]), the key store ([btctxstore.BtcTxStore]), the
    configuration file and the clock.  Their behaviour is an
    environment [Env]; the client is a state-passing program over a
    [State] that holds the client object, the clock, the saved
    configuration and the trace of what was asked of the collaborators. *)

From Stdlib Require Import ZArith Lia.
From stdpp Require Import gmap strings list sorting.

Local Open Scope Z_scope.

(** ** Exceptions *)

Inductive exn : Type :=
| AddressAlreadyRegistered            (* exceptions.AddressAlreadyRegistered *)
| InvalidAddress (address : string)   (* exceptions.InvalidAddress *)
| InvalidHWIF (hwif : string)         (* exceptions.InvalidHWIF *)
| ConnectionExhausted                 (* the messenger gave up *)
| BuildFailure                        (* the builder could not write *)
| ServerRejected                      (* any other failure of the server *)
| ZeroDivisionError
| OverflowError                       (* a float, a date or a sleep too large *)
| ValueError                          (* [time.sleep] of a negative number *)
| AttributeError                      (* [None.attr] *)
| KeyError (key : string).            (* [d[key]] on a missing key *)

Global Instance exn_eq_dec : EqDecision exn.
Proof. solve_decision. Defined.

(** ** The messenger object

    [messaging.Messaging(url, wif, retry_limit, retry_delay, debug)]:
    the attributes the constructor receives.  [farm] assigns to
    [retry_limit] afterwards. *)

Module Messaging.
Record t : Type := Build {
  url : string;
  wif : string;
  retry_limit : Z;
  retry_delay : Z;
  debug : bool
}.

Definition set_retry_limit (v : Z) (m : t) : t :=
  Build (url m) (wif m) v (retry_delay m) (debug m).
End Messaging.

(** ** The client object: the attributes set by [Client.__init__] *)

Record Client : Type := mkClient {
  url : string;
  debug : bool;
  max_size : Z;
  messenger : option Messaging.t;        (* [None] until first use: lazy *)
  retry_limit : Z;
  retry_delay : Z;
  cfg_path : string;
  store_path : string;
  cfg : gmap string string
}.

Definition with_messenger (m : option Messaging.t) (c : Client) : Client :=
  mkClient (url c) (debug c) (max_size c) m (retry_limit c) (retry_delay c)
           (cfg_path c) (store_path c) (cfg c).

Definition with_cfg (d : gmap string string) (c : Client) : Client :=
  mkClient (url c) (debug c) (max_size c) (messenger c) (retry_limit c)
           (retry_delay c) (cfg_path c) (store_path c) d.

(** ** What the collaborators are asked to do *)

(** The three remote operations of the messenger. *)
Inductive Call : Type :=
| Register (payout_address : string)   (* messenger.register(payout_address) *)
| Ping                                 (* messenger.ping() *)
| Height (height : Z).                 (* messenger.height(height) *)

(** One entry of the trace.  A [Sent] entry carries the messenger object
    as it was when the method was called, so the retry settings in force
    for that call can be read off the trace. *)
Inductive Event : Type :=
| New (m : Messaging.t)                (* messaging.Messaging(...) *)
| Sent (m : Messaging.t) (c : Call)    (* a method of the messenger *)
| Slept (seconds : Z)                  (* time.sleep(seconds) *)
| Saved (d : gmap string string)       (* config.save(..., cfg) *)
| Built (cleanup rebuild : bool) (num_cores : positive). (* bldr.build(...) *)

(** ** The state the program runs in

    [clock] is the wall clock as [datetime.now()] reads it: the
    microseconds since 0001-01-01 00:00:00, the least [datetime];
    [cfg_file] is the configuration as last saved. *)

Record State : Type := mkState {
  self : Client;
  clock : Z;
  trace : list Event;
  cfg_file : gmap string string
}.

Definition with_self (c : Client) (s : State) : State :=
  mkState c (clock s) (trace s) (cfg_file s).

Definition with_cfg_file (d : gmap string string) (s : State) : State :=
  mkState (self s) (clock s) (trace s) d.

(** ** Numbers, floats and times as Python has them *)

(** The integer nearest to [n / d], the even one of two that are equally
    near ([0 ≤ n], [0 < d]). *)
Definition round_half_even (n d : Z) : Z :=
  let q := n `div` d in
  let r := n `mod` d in
  if 2 * r <? d then q
  else if d <? 2 * r then q + 1
  else if Z.even q then q else q + 1.

(** The exponent of the last of the 53 bits of the float nearest to
    [n / d] ([0 < n], [0 < d]): 52 below the power of two at or under
    the quotient, and -1074 at least. *)
Definition ulp_exponent (n d : Z) : Z :=
  Z.max (-1074)
        ((if d <=? n then Z.log2 (n `div` d)
          else - Z.log2_up ((n + d - 1) `div` n)) - 52).

(** [a / b] on two [int]s: the float [m * 2 ^ e] nearest to the
    quotient, as the pair [(m, e)].  Python raises [ZeroDivisionError]
    for [b = 0] and [OverflowError] when the nearest float would be
    [2 ^ 1024] or more. *)
Definition truediv (a b : Z) : exn + Z * Z :=
  if b =? 0 then inl ZeroDivisionError
  else if a =? 0 then inr (0, 0)
  else
    let n := Z.abs a in
    let d := Z.abs b in
    let e := ulp_exponent n d in
    let m := if 0 <=? e then round_half_even n (d * 2 ^ e)
             else round_half_even (n * 2 ^ (- e)) d in
    if (0 <=? e) && (2 ^ 1024 <=? m * 2 ^ e) then inl OverflowError
    else inr (Z.sgn a * Z.sgn b * m, e).

(** [int(x)] on a float: towards zero. *)
Definition int_of_float (x : Z * Z) : Z :=
  let (m, e) := x in
  if 0 <=? e then m * 2 ^ e else m `quot` 2 ^ (- e).

(** [int(a / b)] *)
Definition int_truediv (a b : Z) : exn + Z :=
  match truediv a b with
  | inl e => inl e
  | inr x => inr (int_of_float x)
  end.

(** The longest [time.sleep] takes, in seconds: what fits in 63 bits
    when counted in nanoseconds. *)
Definition SLEEP_MAX : Z := (2 ^ 63 - 1) `quot` 1000000000.

(** The end of the last day a [datetime] holds, 9999-12-31, the day
    3652059, in microseconds. *)
Definition DATETIME_END : Z := 3652059 * 86400 * 1000000.

(** ** The environment

    Constants of [common] and the behaviour of the collaborators.
    [reply] and [lag] are asked with the trace up to and including the
    request at hand: [reply] says whether the request raises, [lag] how
    much time (in microseconds, never negative) goes by until it
    returns.  [shards] are the arguments with which the builder calls
    [on_generate_shard], in that order, when it builds to the end, and
    [generated] is what [bldr.build] returns then; [written] are the
    calls a builder that fails has made by the time it fails.
    [DEFAULT_DELAY] is a number of seconds that [time.sleep] takes. *)

Record Env : Type := mkEnv {
  SHARD_SIZE : Z;
  DEFAULT_DELAY : N;
  DEFAULT_SET_HEIGHT_INTERVAL : positive;
  DEFAULT_NUMCORES : positive;
  get_key : string → string;             (* btctxstore.get_key *)
  validate_address : string → bool;      (* btctxstore.validate_address *)
  validate_wallet : string → bool;       (* btctxstore.validate_wallet *)
  reply : list Event → option exn;
  lag : list Event → N;
  shards : list (Z * string * string);
  generated : Z;
  written : list (Z * string * string);
  DEFAULT_DELAY_sleeps : (Z.of_N DEFAULT_DELAY <=? SLEEP_MAX) = true
}.

(** ** A state and exception monad

    [Running] is the answer of a loop that was still going when its
    budget of iterations ran out.  The state survives an exception, as
    the attributes of a Python object do. *)

Inductive result (A : Type) : Type :=
| Ret (a : A)
| Raise (e : exn)
| Running.
Arguments Ret {A} a.
Arguments Raise {A} e.
Arguments Running {A}.

Definition M (A : Type) : Type := State → result A * State.

Global Instance M_ret : MRet M := λ A a s, (Ret a, s).

Global Instance M_bind : MBind M := λ A B f m s,
  match m s with
  | (Ret a, s') => f a s'
  | (Raise e, s') => (Raise e, s')
  | (Running, s') => (Running, s')
  end.

Definition raise {A : Type} (e : exn) : M A := λ s, (Raise e, s).

Definition running {A : Type} : M A := λ s, (Running, s).

(** [try: body except e: pass] *)
Definition try_except_pass (e : exn) (body : M unit) : M unit := λ s,
  match body s with
  | (Raise e', s') => if decide (e' = e) then (Ret (), s') else (Raise e', s')
  | r => r
  end.

Definition seconds (n : Z) : Z := n * 1000000.

(** [timedelta(seconds=secs)], in microseconds: a [timedelta] holds
    999999999 days at most, either way. *)
Definition timedelta (secs : Z) : M Z := λ s,
  let days := secs `div` 86400 in
  if (-999999999 <=? days) && (days <=? 999999999)
  then (Ret (seconds secs), s)
  else (Raise OverflowError, s).

(** [t + d] on a [datetime] and a [timedelta]: the sum is a [datetime]
    of the years 1 to 9999 or the addition raises. *)
Definition datetime_add (t d : Z) : M Z := λ s,
  if (0 <=? t + d) && (t + d <? DATETIME_END)
  then (Ret (t + d), s)
  else (Raise OverflowError, s).

Section Program.
Context (E : Env).

(** A request to a collaborator: it enters the trace and takes its time. *)
Definition request (ev : Event) : M unit := λ s,
  let tr := trace s ++ [ev] in
  let s' := mkState (self s) (clock s + Z.of_N (lag E tr)) tr
                    (cfg_file s) in
  match reply E tr with
  | None => (Ret (), s')
  | Some e => (Raise e, s')
  end.

(** [self.messenger.<call>(...)] *)
Definition send (c : Call) : M unit := λ s,
  match messenger (self s) with
  | None => (Raise AttributeError, s)
  | Some m => request (Sent m c) s
  end.

(** [self.cfg[key]] *)
Definition cfg_get (key : string) : M string := λ s,
  match cfg (self s) !! key with
  | Some v => (Ret v, s)
  | None => (Raise (KeyError key), s)
  end.

(** [self.cfg] *)
Definition self_cfg : M (gmap string string) := λ s, (Ret (cfg (self s)), s).

(** [datetime.now()] *)
Definition datetime_now : M Z := λ s, (Ret (clock s), s).

(** [time.sleep(secs)]: Python refuses a negative number and a number
    of seconds above [SLEEP_MAX] before any sleep; a sleep that the
    operating system refuses, as the environment says, raises without
    the seconds going by. *)
Definition time_sleep (secs : Z) : M unit := λ s,
  if secs <? 0 then (Raise ValueError, s)
  else if SLEEP_MAX <? secs then (Raise OverflowError, s)
  else
    let tr := trace s ++ [Slept secs] in
    match reply E tr with
    | None =>
        (Ret (), mkState (self s) (clock s + seconds secs + Z.of_N (lag E tr))
                   tr (cfg_file s))
    | Some e =>
        (Raise e, mkState (self s) (clock s + Z.of_N (lag E tr)) tr
                    (cfg_file s))
    end.

(** The value of [int(client.max_size / common.SHARD_SIZE)], where the
    division has one. *)
Definition last_height (client : Client) : Z :=
  match int_truediv (max_size client) (SHARD_SIZE E) with
  | inr v => v
  | inl _ => 0
  end.

(** [_on_generate_shard]: lines 32-45 *)
Definition _on_generate_shard (cur_height : Z) (cur_seed cur_file_hash : string)
    (set_height_interval : Z) : M unit := λ s,
  let first := cur_height =? 1 in
  if set_height_interval =? 0 then (Raise ZeroDivisionError, s) else
  let set_height := (cur_height `mod` set_height_interval) =? 0 in
  match int_truediv (max_size (self s)) (SHARD_SIZE E) with
  | inl e => (Raise e, s)
  | inr v =>
      let last := v =? cur_height in
      if first || set_height || last
      then send (Height cur_height) s
      else (Ret (), s)
  end.

(** [Client._init_messenger]: lines 85-92 *)
Definition _init_messenger : M unit := λ s,
  match messenger (self s) with
  | Some _ => (Ret (), s)
  | None =>
      match cfg (self s) !! "wallet"%string with
      | None => (Raise (KeyError "wallet"), s)
      | Some wallet =>
          let c := self s in
          let m := Messaging.Build (url c) (get_key E wallet)
                     (retry_limit c) (retry_delay c) (debug c) in
          (Ret (), mkState (with_messenger (Some m) c) (clock s)
                     (trace s ++ [New m]) (cfg_file s))
      end
  end.

(** [Client.register]: lines 94-100 (the log line is left out) *)
Definition register : M bool :=
  _init_messenger ;;
  payout_address ← cfg_get "payout_address" ;
  send (Register payout_address) ;;
  mret true.

(** [Client.ping]: lines 141-149.  The log line, which reads the
    server's address and the clock, is left out. *)
Definition ping : M bool :=
  _init_messenger ;;
  send Ping ;;
  mret true.

(** Python's truth value of an optional string argument and of an
    optional number: [None], the empty string and zero are false. *)
Definition truthy_str (o : option string) : bool :=
  match o with
  | Some v => negb (String.eqb v EmptyString)
  | None => false
  end.

Definition truthy_int (o : option Z) : bool :=
  match o with
  | Some v => negb (v =? 0)
  | None => false
  end.

(** [config.save(self.btctxstore, self.cfg_path, self.cfg)] *)
Definition config_save : M unit := λ s,
  match request (Saved (cfg (self s))) s with
  | (Ret _, s') => (Ret (), with_cfg_file (cfg (self s)) s')
  | r => r
  end.

(** [self.cfg[key] = v] *)
Definition cfg_set (key v : string) : M unit := λ s,
  (Ret (), with_self (with_cfg (<[key := v]> (cfg (self s))) (self s)) s).

(** [Client.config]: lines 102-139.  The final [print] reads
    [self.cfg["payout_address"]]; what it writes to the terminal is
    left out. *)
Definition config (set_wallet set_payout_address : option string)
    : M (gmap string string) :=
  (match set_payout_address with
   | Some a => if validate_address E a then mret () else raise (InvalidAddress a)
   | None => mret ()
   end : M unit) ;;
  (match set_wallet with
   | Some w => if validate_wallet E w then mret () else raise (InvalidHWIF w)
   | None => mret ()
   end : M unit) ;;
  _init_messenger ;;
  let config_updated := false in
  config_updated ← (match set_payout_address with
                    | Some a => if truthy_str (Some a)
                                then cfg_set "payout_address" a ;; mret true
                                else mret config_updated
                    | None => mret config_updated
                    end : M bool) ;
  config_updated ← (match set_wallet with
                    | Some w => if truthy_str (Some w)
                                then cfg_set "wallet" w ;; mret true
                                else mret config_updated
                    | None => mret config_updated
                    end : M bool) ;
  (if config_updated : bool then config_save else mret ()) ;;
  cfg_get "payout_address" ;;
  self_cfg.

(** The [while True] loop of [Client.poll], lines 172-177, run for at
    most [fuel] iterations. *)
Fixpoint poll_loop (fuel : nat) (stop_time : option Z) (delay : N) : M bool :=
  match fuel with
  | O => running
  | S fuel' =>
      ping ;;
      stop ← (match stop_time with
              | Some t => now ← datetime_now ; mret (t <=? now)
              | None => mret false
              end : M bool) ;
      if stop : bool then mret true
      else time_sleep (Z.of_N delay) ;; poll_loop fuel' stop_time delay
  end.

(** [Client.poll]: lines 151-177.  [delay] and [register_address] are
    taken as [deserialize.positive_integer] and [deserialize.flag]
    return them. *)
Definition poll (fuel : nat) (register_address : bool) (delay : N)
    (limit : option Z) : M bool :=
  stop_time ← (match limit with
               | Some l => if truthy_int (Some l)
                           then now ← datetime_now ;
                                d ← timedelta l ;
                                t ← datetime_add now d ;
                                mret (Some t)
                           else mret None
               | None => mret None
               end : M (option Z)) ;
  (if register_address then register ;; mret () else mret ()) ;;
  poll_loop fuel stop_time delay.

(** The builder calls [on_generate_shard] for each shard it generates. *)
Fixpoint generate (on_generate_shard : Z → string → string → M unit)
    (l : list (Z * string * string)) : M unit :=
  match l with
  | [] => mret ()
  | (height, seed, file_hash) :: l' =>
      on_generate_shard height seed file_hash ;;
      generate on_generate_shard l'
  end.

(** [bldr.build(store_path, cleanup, rebuild, num_cores)] of
    [builder.Builder]: the environment says whether the builder fails
    and which shards it generates.  A builder that fails raises after
    the calls it has made by then; what [on_generate_shard] raises ends
    the build at once, in both cases. *)
Definition bldr_build (on_generate_shard : Z → string → string → M unit)
    (cleanup rebuild : bool) (num_cores : positive) : M Z := λ s,
  match request (Built cleanup rebuild num_cores) s with
  | (Ret _, s') =>
      (generate on_generate_shard (shards E) ;; mret (generated E)) s'
  | (Raise e, s') =>
      (generate on_generate_shard (written E) ;; raise e) s'
  | (Running, s') => (Running, s')
  end.

(** [Client.build]: lines 179-214.  [set_height_interval] and
    [num_cores] are taken as [deserialize.positive_nonzero_integer]
    returns them. *)
Definition build (cleanup rebuild : bool)
    (set_height_interval num_cores : positive) : M Z :=
  _init_messenger ;;
  let on_generate_shard := λ h seed file_hash,
    _on_generate_shard h seed file_hash (Z.pos set_height_interval) in
  cfg_get "payout_address" ;;
  bldr_build on_generate_shard cleanup rebuild num_cores.

(** The retry limit [farm] forces on the messenger: 38 nines. *)
Definition NEVER_GIVES_UP : Z := 99999999999999999999999999999999999999.

(** [self.messenger.retry_limit = v] *)
Definition set_messenger_retry_limit (v : Z) : M unit := λ s,
  match messenger (self s) with
  | None => (Raise AttributeError, s)
  | Some m =>
      (Ret (), with_self (with_messenger
                            (Some (Messaging.set_retry_limit v m)) (self s)) s)
  end.

(** [Client.farm]: lines 216-231 *)
Definition farm (fuel : nat) : M unit :=
  _init_messenger ;;
  set_messenger_retry_limit NEVER_GIVES_UP ;;
  try_except_pass AddressAlreadyRegistered (register ;; mret ()) ;;
  build false false (DEFAULT_SET_HEIGHT_INTERVAL E) (DEFAULT_NUMCORES E) ;;
  poll fuel false (DEFAULT_DELAY E) None ;;
  mret ().

End Program.

(** The public operations of the client, as the command line calls
    them. *)
Inductive Op : Type :=
| OpRegister
| OpConfig (set_wallet set_payout_address : option string)
| OpPing
| OpPoll (register_address : bool) (delay : N) (limit : option Z)
| OpBuild (cleanup rebuild : bool) (set_height_interval num_cores : positive)
| OpFarm.

(** One operation, its result dropped; [fuel] bounds the turns of the
    polling loop. *)
Definition run (E : Env) (fuel : nat) (op : Op) : M unit :=
  match op with
  | OpRegister => register E ;; mret ()
  | OpConfig w a => config E w a ;; mret ()
  | OpPing => ping E ;; mret ()
  | OpPoll r d l => poll E fuel r d l ;; mret ()
  | OpBuild c r i n => build E c r i n ;; mret ()
  | OpFarm => farm E fuel
  end.

(** A sequence of operations; an operation that raises leaves the
    client to the next one, as a caller that catches would. *)
Definition run_all (E : Env) (fuel : nat) (ops : list Op) (s : State) : State :=
  foldl (λ s op, (run E fuel op s).2) s ops.

(** The operations other than [farm]. *)
Definition standalone (op : Op) : Prop :=
  match op with OpFarm => False | _ => True end.

(** [Client.__init__]: lines 50-72; the arguments as the [deserialize]
    helpers return them, [cfg] as [config.get] reads it. *)
Definition Client_init (url : string) (debug : bool) (max_size : Z)
    (store_path config_path : string)
    (connection_retry_limit connection_retry_delay : N)
    (cfg : gmap string string) : Client :=
  mkClient url debug max_size None (Z.of_N connection_retry_limit)
           (Z.of_N connection_retry_delay) config_path store_path cfg.

(** ** Reading a trace *)

Fixpoint count (p : Event → bool) (tr : list Event) : nat :=
  match tr with
  | [] => O
  | ev :: tr' => ((if p ev then 1 else 0) + count p tr')%nat
  end.

Definition is_new (ev : Event) : bool :=
  match ev with New _ => true | _ => false end.
Definition is_register (ev : Event) : bool :=
  match ev with Sent _ (Register _) => true | _ => false end.
Definition is_ping (ev : Event) : bool :=
  match ev with Sent _ Ping => true | _ => false end.
Definition is_built (ev : Event) : bool :=
  match ev with Built _ _ _ => true | _ => false end.

(** The callback of a build with checkpoint interval [interval], run for
    the heights [1..total_height] in order. *)
Definition checkpoints (E : Env) (interval total_height : Z) : M unit :=
  generate (λ h seed file_hash, _on_generate_shard E h seed file_hash interval)
           ((λ h, (h, EmptyString, EmptyString)) <$> seqZ 1 total_height).

(** Following the spec's words: a checkpoint is due at the first height,
    at every multiple of the interval and at the last height. *)
Definition due (interval total_height height : Z) : Prop :=
  height = 1 ∨ height `mod` interval = 0 ∨ height = total_height.

Global Instance due_dec interval total_height height :
  Decision (due interval total_height height).
Proof. unfold due. apply _. Defined.

Definition is_height (ev : Event) : bool :=
  match ev with Sent _ (Height _) => true | _ => false end.

(** An environment in which no request fails. *)
Definition reliable (E : Env) : Prop := ∀ tr, reply E tr = None.

(** An environment in which no request of the kind [p] fails. *)
Definition answers (E : Env) (p : Event → bool) : Prop :=
  ∀ tr ev, p ev = true → reply E (tr ++ [ev]) = None.

(** Following the spec's words: [total_height = ceil(max_size / shard_size)]. *)
Definition total_height (max_size shard_size : Z) : Z :=
  (max_size + shard_size - 1) `div` shard_size.

(** ** Sample environments and clients *)

(** 128 MiB shards, a server that accepts everything at once, a builder
    that generates ten shards. *)
Definition sample_env : Env :=
  mkEnv 134217728 2 25 1 (λ w, w) (λ a, String.eqb a "1payout")
        (λ w, String.eqb w "xprv") (λ _, None) (λ _, 0%N)
        ((λ h, (h, EmptyString, EmptyString)) <$> seqZ 1 10) 10 [] eq_refl.

Definition sample_cfg : gmap string string :=
  <["wallet" := "xprv"%string]> (<["payout_address" := "1payout"%string]> ∅).

(** A client of ten shards, retry limit 5 and retry delay 30. *)
Definition sample_client : Client :=
  Client_init "http://server" false 1342177280 "store" "config.json" 5 30
              sample_cfg.

Definition sample_state : State := mkState sample_client 0 [] sample_cfg.

(** A server on which the address is registered already: it refuses
    every registration and accepts everything else. *)
Definition registered_env : Env :=
  mkEnv 134217728 2 25 1 (λ w, w) (λ a, String.eqb a "1payout")
        (λ w, String.eqb w "xprv")
        (λ tr, match last tr with
               | Some (Sent _ (Register _)) => Some AddressAlreadyRegistered
               | _ => None
               end)
        (λ _, 0%N)
        ((λ h, (h, EmptyString, EmptyString)) <$> seqZ 1 10) 10 [] eq_refl.

(** A client with the retry policy (3, 0). *)
Definition impatient_state : State :=
  mkState (Client_init "http://server" false 1342177280 "store"
             "config.json" 3 0 sample_cfg) 0 [] sample_cfg.

(** The client once its messenger exists. *)
Definition sample_ready : State := (_init_messenger sample_env sample_state).2.

(** A client whose capacity is one shard and a half. *)
Definition uneven_ready : State :=
  (_init_messenger sample_env
     (mkState (Client_init "http://server" false 201326592 "store"
                 "config.json" 5 30 sample_cfg) 0 [] sample_cfg)).2.

(** A client whose capacity is nine shards and a half. *)
Definition odd_ready : State :=
  (_init_messenger sample_env
     (mkState (Client_init "http://server" false 1275068416 "store"
                 "config.json" 5 30 sample_cfg) 0 [] sample_cfg)).2.

(** ** The retry loop of the messenger *)

(** What one attempt at a remote operation comes to. *)
Inductive Outcome : Type :=
| Success
| Transient               (* a failure that may be retried *)
| Fatal (e : exn).

(** What the messenger does while it tries. *)
Inductive Step : Type :=
| Attempt
| Wait (seconds : Z).

(** Modelled from the spec: the retry loop of [messaging.Messaging],
    whose source is not part of [api.py].  "On a retryable failure, wait
    [delay] seconds and retry, up to [limit] attempts; exceeding the
    limit surfaces [ConnectionExhausted]."  [server k] is the outcome of
    attempt number [k]; [remaining] attempts are left and [made] were
    made.  It returns the exception raised, if any, and what was done. *)
Fixpoint resilient (server : nat → Outcome) (delay : Z)
    (remaining made : nat) : option exn * list Step :=
  match remaining with
  | O => (Some ConnectionExhausted, [])
  | S remaining' =>
      match server made with
      | Success => (None, [Attempt])
      | Fatal e => (Some e, [Attempt])
      | Transient =>
          let (r, steps) := resilient server delay remaining' (S made) in
          (r, Attempt :: match remaining' with
                         | O => steps
                         | S _ => Wait delay :: steps
                         end)
      end
  end.

(** Modelled from the spec: a remote operation of a messenger with the
    retry policy [(retry_limit, retry_delay)]. *)
Definition remote (m : Messaging.t) (server : nat → Outcome)
    : option exn * list Step :=
  resilient server (Messaging.retry_delay m)
            (Z.to_nat (Messaging.retry_limit m)) 0.

Definition is_attempt (st : Step) : bool :=
  match st with Attempt => true | Wait _ => false end.

(** [n] attempts with a wait of [delay] seconds between them. *)
Definition attempts (delay : Z) (n : nat) : list Step :=
  match n with
  | O => []
  | S k => Attempt :: mjoin (replicate k [Wait delay; Attempt])
  end.

(** ** Specification vocabulary *)

(** The messengers constructed so far, plus one if none exists yet. *)
Definition constructions (s : State) : nat :=
  (count is_new (trace s) +
   match messenger (self s) with Some _ => 0 | None => 1 end)%nat.


(** The messenger exists or can be created. *)
Definition ready (s : State) : Prop :=
  is_Some (messenger (self s)) ∨ is_Some (cfg (self s) !! "wallet"%string).

(** From [s] to [s'] time did not go back and the trace grew by events
    that all satisfy [P]. *)
Definition steps (P : Event → Prop) (s s' : State) : Prop :=
  clock s ≤ clock s' ∧ ∃ evs, trace s' = trace s ++ evs ∧ Forall P evs.

(** A program that keeps the invariant [I] of the state and only asks
    for what [P] allows. *)
Definition emits {A : Type} (I : State → Prop) (P : Event → Prop)
    (m : M A) : Prop :=
  ∀ s, I s → I (m s).2 ∧ steps P s (m s).2.

(** [I] and [P] allow the call [call] on the messenger of the client. *)
Definition allows (I : State → Prop) (P : Event → Prop) (call : Call)
    : Prop :=
  ∀ s m, I s → messenger (self s) = Some m → P (Sent m call).

(** [I] survives what the primitives do to the state: a request or a
    sleep, the construction of the messenger (which [P] allows) and an
    assignment to the configuration dictionary. *)
Record closed (E : Env) (I : State → Prop) (P : Event → Prop) : Prop := {
  closed_event : ∀ s s' ev,
    I s → is_new ev = false → self s' = self s →
    trace s' = trace s ++ [ev] → I s';
  closed_new : ∀ s w,
    I s → messenger (self s) = None →
    let m := Messaging.Build (url (self s)) (get_key E w)
               (retry_limit (self s)) (retry_delay (self s))
               (debug (self s)) in
    I (mkState (with_messenger (Some m) (self s)) (clock s)
         (trace s ++ [New m]) (cfg_file s)) ∧ P (New m);
  closed_cfg : ∀ s d, I s → I (with_self (with_cfg d (self s)) s)
}.

(** [I] survives the assignment of [v] to the retry limit of the
    messenger. *)
Definition closed_set (v : Z) (I : State → Prop) : Prop :=
  ∀ s m, I s → messenger (self s) = Some m →
    I (with_self (with_messenger (Some (Messaging.set_retry_limit v m))
                    (self s)) s).

(** A server that accepts a registration or says that the address is
    registered already, and accepts everything else. *)
Definition registration_known (E : Env) : Prop :=
  (∀ tr m a, reply E (tr ++ [Sent m (Register a)]) = None ∨
             reply E (tr ++ [Sent m (Register a)])
               = Some AddressAlreadyRegistered) ∧
  answers E (λ ev, negb (is_register ev)).

(** A server on which the address is registered already. *)
Definition already_registered (E : Env) : Prop :=
  (∀ tr m a, reply E (tr ++ [Sent m (Register a)])
               = Some AddressAlreadyRegistered) ∧
  answers E (λ ev, negb (is_register ev)).

(** The requests of a build that runs to its end: the call of the
    builder and the reports of the heights that are due. *)
Definition build_events (E : Env) (c : Client) (m : Messaging.t)
    (cleanup rebuild : bool) (set_height_interval num_cores : positive)
    : list Event :=
  Built cleanup rebuild num_cores ::
  ((λ h, Sent m (Height h)) <$>
     filter (due (Z.pos set_height_interval) (last_height E c))
            ((shards E).*1.*1)).

(** The events of a build. *)
Definition is_build (ev : Event) : bool :=
  match ev with Built _ _ _ | Sent _ (Height _) => true | _ => false end.

(** A request to the server that is made under the retry limit [L]. *)
Definition sent_under (L : Z) (ev : Event) : Prop :=
  match ev with Sent m _ => Messaging.retry_limit m = L | _ => True end.

(** An event of the kind [p] under the retry limit [L]. *)
Definition phase (p : Event → bool) (L : Z) (ev : Event) : Prop :=
  p ev = true ∧ sent_under L ev.

(** One relation between states, then another. *)
Definition then_ (R1 R2 : State → State → Prop) (s s' : State) : Prop :=
  ∃ s1, R1 s s1 ∧ R2 s1 s'.

(** The registration of [farm]: requests to register under the retry
    limit [L], one at most. *)
Definition registers_once (L : Z) (s s' : State) : Prop :=
  steps (phase is_register L) s s' ∧
  (length (trace s') ≤ S (length (trace s)))%nat.

(** The messenger exists and its retry limit is [L]. *)
Definition messenger_limit (L : Z) (s : State) : Prop :=
  ∃ m, messenger (self s) = Some m ∧ Messaging.retry_limit m = L.

(** The retry limit of the client is [L], and so is that of its
    messenger if it exists. *)
Definition configured_limit (L : Z) (s : State) : Prop :=
  retry_limit (self s) = L ∧
  ∀ m, messenger (self s) = Some m → Messaging.retry_limit m = L.

(** The events of the polling loop. *)
Definition is_poll (ev : Event) : bool :=
  match ev with Sent _ Ping | Slept _ => true | _ => false end.


(** The count of constructions never goes down, and together with the
    messenger that is still to come it never changes. *)
Definition accounted (n K : nat) (s : State) : Prop :=
  constructions s = K ∧ (n ≤ count is_new (trace s))%nat.

(** The messenger is [m], but for its retry limit. *)
Definition same_but_limit (m : Messaging.t) (s : State) : Prop :=
  ∃ v, messenger (self s) = Some (Messaging.set_retry_limit v m).

(** [n] turns of the polling loop that did not stop. *)
Definition turns (m : Messaging.t) (delay : N) (n : nat) : list Event :=
  mjoin (replicate n [Sent m Ping; Slept (Z.of_N delay)]).


(** [a / b] is not too large for a float. *)
Definition in_float_range (a b : Z) : Prop := truediv a b ≠ inl OverflowError.

(** [now + timedelta(seconds=limit)] is a [datetime]: the limit is one
    that a [timedelta] holds and the stop time falls in the years 1 to
    9999. *)
Definition representable (now limit : Z) : Prop :=
  -999999999 ≤ limit `div` 86400 ≤ 999999999 ∧
  0 ≤ now + seconds limit < DATETIME_END.

(** [time.sleep] takes a delay of so many seconds. *)
Definition sleepable (delay : N) : Prop := Z.of_N delay ≤ SLEEP_MAX.

Global Instance representable_dec now limit :
  Decision (representable now limit).
Proof. unfold representable. apply _. Defined.

Global Instance sleepable_dec delay : Decision (sleepable delay).
Proof. unfold sleepable. apply _. Defined.

(** [poll] can compute its stop time, if it has to. *)
Definition stop_time_fits (now : Z) (limit : option Z) : Prop :=
  match limit with
  | Some l => l = 0 ∨ representable now l
  | None => True
  end.

(** ** Further vocabulary *)



(** A server that cannot be reached: the messenger gives up on every
    request. *)
Definition down_env : Env :=
  mkEnv 134217728 2 25 1 (λ w, w) (λ a, String.eqb a "1payout")
        (λ w, String.eqb w "xprv") (λ _, Some ConnectionExhausted)
        (λ _, 0%N)
        ((λ h, (h, EmptyString, EmptyString)) <$> seqZ 1 10) 10 [] eq_refl.

(** A new client whose configuration holds the wallet ["old"]. *)
Definition stale_state : State :=
  mkState (Client_init "http://server" false 1342177280 "store"
             "config.json" 5 30
             (<["wallet" := "old"%string]> sample_cfg)) 0 [] sample_cfg.

Definition is_saved (ev : Event) : bool :=
  match ev with Saved _ => true | _ => false end.

Definition is_slept (ev : Event) : bool :=
  match ev with Slept _ => true | _ => false end.

(** The dictionary [config] leaves: an argument that is given and not
    empty is stored under its key. *)
Definition stored (key : string) (arg : option string)
    (d : gmap string string) : gmap string string :=
  match arg with
  | Some v => if truthy_str (Some v) then <[key := v]> d else d
  | None => d
  end.

Definition configured (set_wallet set_payout_address : option string)
    (d : gmap string string) : gmap string string :=
  stored "wallet" set_wallet (stored "payout_address" set_payout_address d).

(** The arguments of [config] pass its two checks. *)
Definition acceptable (E : Env) (set_wallet set_payout_address : option string)
    : Prop :=
  (∀ a, set_payout_address = Some a → validate_address E a = true) ∧
  (∀ w, set_wallet = Some w → validate_wallet E w = true).

(** [if arg: self.cfg[key] = arg] *)
Definition cfg_set_if (key : string) (arg : option string) : M unit :=
  match arg with
  | Some v => if truthy_str (Some v) then cfg_set key v else mret ()
  | None => mret ()
  end.

(** What an operation other than [config] has no business with: the
    client object but for its messenger, and the saved configuration. *)
Definition belongings (s : State) : Client * gmap string string :=
  (with_messenger None (self s), cfg_file s).

(** A program that leaves the belongings alone. *)
Definition keeps {A : Type} (m : M A) : Prop :=
  ∀ s, belongings (m s).2 = belongings s.

(** The operations other than [config]. *)
Definition no_config (op : Op) : Prop :=
  match op with OpConfig _ _ => False | _ => True end.

(** The calls of [on_generate_shard] that the builder makes: those of a
    whole build, or those made by the time it fails. *)
Definition builder_calls (E : Env) (failure : option exn)
    : list (Z * string * string) :=
  match failure with
  | Some _ => written E
  | None => shards E
  end.

(** The heights among the calls [l] that are due for a report, in the
    order of the calls. *)
Definition due_heights (E : Env) (c : Client) (set_height_interval : positive)
    (l : list (Z * string * string)) : list Z :=
  filter (due (Z.pos set_height_interval) (last_height E c)) (l.*1.*1).

(** * Properties *)

(** ** The division of [int(max_size / SHARD_SIZE)] *)

(** Rounding goes to the quotient or to the integer above it. *)
Lemma round_half_even_cases n d :
  0 < d →
  round_half_even n d = n `div` d ∨
  round_half_even n d = n `div` d + 1 ∧ d ≤ 2 * (n `mod` d).
Proof.
  intros Hd. unfold round_half_even.
  destruct (Z.ltb_spec (2 * (n `mod` d)) d); [by left|].
  destruct (Z.ltb_spec d (2 * (n `mod` d))); [right; lia|].
  destruct (Z.even _); [by left|right; lia].
Qed.

(** With [s] places after the point, rounding [a / b] does not reach
    the integer above the quotient unless [b] is large for [s]. *)
Lemma round_half_even_scaled a b s :
  0 ≤ a → 0 < b → 0 < s →
  (2 * s ≤ b → a < b ∧ a < s) →
  round_half_even (a * s) b `div` s = a `div` b.
Proof.
  intros Ha Hb Hs Hsmall.
  assert (((a * s) `div` b) `div` s = a `div` b) as HQ.
  { rewrite Z.div_div by lia. apply Z.div_mul_cancel_r; lia. }
  destruct (round_half_even_cases (a * s) b Hb) as [->|[-> HR]]; [done|].
  pose proof (Z.div_mod (a * s) b ltac:(lia)) as H1.
  pose proof (Z.mod_pos_bound (a * s) b Hb) as H2.
  pose proof (Z.div_mod a b ltac:(lia)) as H3.
  pose proof (Z.mod_pos_bound a b Hb) as H4.
  set (Q := (a * s) `div` b) in *. set (R := (a * s) `mod` b) in *.
  set (k := a `div` b) in *. set (r := a `mod` b) in *.
  pose proof (Z.div_mod Q s ltac:(lia)) as H5.
  pose proof (Z.mod_pos_bound Q s Hs) as H6.
  rewrite HQ in H5.
  destruct (decide (Q `mod` s + 1 < s)) as [Hlt|Hge].
  - symmetry. apply (Z.div_unique_pos _ _ _ (Q `mod` s + 1)); lia.
  - exfalso. assert (Q = s * k + s - 1) as HQ' by lia.
    clearbody Q R k r. clear H5 H6 Hge HQ. subst Q a.
    assert ((b - r) * s = b - R) as H7 by nia.
    assert (2 * s ≤ b) as H8 by nia.
    destruct (Hsmall H8) as [H9 H10].
    assert (k = 0) by nia. subst k. nia.
Qed.

(** Below [2 ^ 53] the float division of two byte counts, cut by
    [int], is the quotient rounded down. *)
Lemma int_truediv_floor a b :
  0 ≤ a < 2 ^ 53 → 0 < b → int_truediv a b = inr (a `div` b).
Proof.
  intros [Ha Ha'] Hb. unfold int_truediv, truediv.
  destruct (Z.eqb_spec b 0) as [|_]; [lia|].
  destruct (Z.eqb_spec a 0) as [->|Ha0]; [done|].
  rewrite (Z.abs_eq a), (Z.abs_eq b), (Z.sgn_pos a), (Z.sgn_pos b) by lia.
  set (e := ulp_exponent a b).
  assert (e ≤ 0 ∧
          (e = 0 → b = 1) ∧
          (e < 0 → 2 * 2 ^ (- e) ≤ b → a < b ∧ a < 2 ^ (- e))) as (He & He0 & Hs).
  { unfold e, ulp_exponent. destruct (Z.leb_spec b a) as [Hba|Hba].
    - set (k := a `div` b).
      assert (1 ≤ k) as Hk by (apply Z.div_le_lower_bound; lia).
      assert (b * k ≤ a) as Hbk by (apply Z.mul_div_le; lia).
      destruct (Z.log2_spec k ltac:(lia)) as [Hl1 Hl2].
      pose proof (Z.log2_nonneg k) as Hl0.
      set (l := Z.log2 k) in *. clearbody l k.
      assert (l < 53) as Hl53.
      { apply (Z.pow_lt_mono_r_iff 2); [lia|lia|]. nia. }
      rewrite Z.max_r by lia. split_and!; [lia| |].
      + intros Hl. assert (l = 52) as -> by lia.
        change (2 ^ 52) with 4503599627370496 in Hl1.
        change (2 ^ 53) with 9007199254740992 in Ha'. nia.
      + intros _ H2s. exfalso.
        replace (- (l - 52)) with (52 - l) in H2s by lia.
        assert (2 ^ l * (2 * 2 ^ (52 - l)) = 2 ^ 53) as Hp.
        { rewrite <- Z.pow_succ_r, <- Z.pow_add_r by lia. f_equal. lia. }
        assert (0 < 2 ^ (52 - l)) by (apply Z.pow_pos_nonneg; lia).
        nia.
    - assert (2 ≤ (a + b - 1) `div` a) as Hc
        by (apply Z.div_le_lower_bound; lia).
      pose proof (Z.log2_up_pos ((a + b - 1) `div` a) ltac:(lia)) as Hl.
      set (l := Z.log2_up _) in *. clearbody l.
      split_and!; [lia|lia|]. intros He _. split; [done|].
      eapply Z.lt_le_trans; [exact Ha'|].
      apply Z.pow_le_mono_r; lia. }
  clearbody e.
  destruct (Z.leb_spec 0 e) as [He'|He'].
  - assert (e = 0) as -> by lia. rewrite (He0 eq_refl).
    change (1 * 2 ^ 0) with 1.
    assert (round_half_even a 1 = a) as ->.
    { unfold round_half_even. rewrite Z.mod_1_r, Z.div_1_r. done. }
    rewrite Z.div_1_r. simpl andb.
    destruct (Z.leb_spec (2 ^ 1024) (a * 2 ^ 0)) as [Hov|_].
    + exfalso. rewrite Z.pow_0_r, Z.mul_1_r in Hov.
      assert (2 ^ 53 ≤ 2 ^ 1024) by (apply Z.pow_le_mono_r; lia). lia.
    + unfold int_of_float. simpl. f_equal. lia.
  - simpl andb. cbv iota. unfold int_of_float.
    destruct (Z.leb_spec 0 e) as [|_]; [lia|].
    assert (0 < 2 ^ (- e)) as Hpos by (apply Z.pow_pos_nonneg; lia).
    f_equal. rewrite !Z.mul_1_l.
    pose proof (round_half_even_scaled a b (2 ^ (- e)) Ha Hb Hpos (Hs He'))
      as Hr.
    rewrite Z.quot_div_nonneg; [done| |lia].
    destruct (round_half_even_cases (a * 2 ^ (- e)) b Hb) as [->|[-> _]];
      [|assert (0 ≤ (a * 2 ^ (- e)) `div` b); [|lia]];
      apply Z.div_pos; nia.
Qed.

Lemma truediv_inl a b e :
  truediv a b = inl e →
  e = ZeroDivisionError ∧ b = 0 ∨ e = OverflowError ∧ b ≠ 0.
Proof.
  unfold truediv. destruct (Z.eqb_spec b 0); [intros [= <-]; by left|].
  destruct (a =? 0); [done|].
  destruct (_ && _); [intros [= <-]; by right|done].
Qed.

(** ** The checkpoint callback *)

Section Callback.
Context (E : Env).

Lemma reliable_answers p : reliable E → answers E p.
Proof. intros H tr ev _. apply H. Qed.

Lemma request_answered p ev s :
  answers E p → p ev = true →
  request E ev s =
    (Ret (), mkState (self s)
               (clock s + Z.of_N (lag E (trace s ++ [ev])))
               (trace s ++ [ev]) (cfg_file s)).
Proof. intros H Hp. unfold request. by rewrite H. Qed.

Lemma request_trace ev s : trace (request E ev s).2 = trace s ++ [ev].
Proof. unfold request. by destruct (reply E _). Qed.

Lemma request_self ev s : self (request E ev s).2 = self s.
Proof. unfold request. by destruct (reply E _). Qed.

(** Where the division of the callback raises nothing, its value is
    [last_height]. *)
Lemma last_height_value c :
  SHARD_SIZE E ≠ 0 → in_float_range (max_size c) (SHARD_SIZE E) →
  int_truediv (max_size c) (SHARD_SIZE E) = inr (last_height E c).
Proof.
  intros HS Hf. unfold last_height, int_truediv in *.
  destruct (truediv _ _) as [e|x] eqn:Ht; [|done].
  by destruct (truediv_inl _ _ _ Ht) as [[_ ?]|[-> _]].
Qed.

(** What the callback does, in one equation. *)
Lemma on_generate_shard_eq s m h seed file_hash N :
  messenger (self s) = Some m → N ≠ 0 → SHARD_SIZE E ≠ 0 →
  in_float_range (max_size (self s)) (SHARD_SIZE E) →
  _on_generate_shard E h seed file_hash N s =
    if decide (due N (last_height E (self s)) h)
    then request E (Sent m (Height h)) s
    else (Ret (), s).
Proof.
  intros Hm HN HS Hf. unfold _on_generate_shard, send.
  destruct (Z.eqb_spec N 0) as [|_]; [done|].
  rewrite last_height_value by done.
  rewrite Hm.
  destruct (Z.eqb_spec h 1), (Z.eqb_spec (h `mod` N) 0),
    (Z.eqb_spec (last_height E (self s)) h); simpl;
    case_decide; try done; exfalso; unfold due in *; intuition congruence.
Qed.

Lemma checkpoints_run s m N l :
  messenger (self s) = Some m → N ≠ 0 → SHARD_SIZE E ≠ 0 →
  in_float_range (max_size (self s)) (SHARD_SIZE E) →
  answers E is_height →
  let r := generate
             (λ h seed file_hash, _on_generate_shard E h seed file_hash N)
             l s in
  r.1 = Ret () ∧ self r.2 = self s ∧ cfg_file r.2 = cfg_file s ∧
  trace r.2 = trace s ++
    ((λ h, Sent m (Height h)) <$>
       filter (due N (last_height E (self s))) (l.*1.*1)).
Proof.
  intros Hm HN HS Hf Hrel. revert s Hm Hf.
  induction l as [|[[h seed] file_hash] l IH]; intros s Hm Hf.
  - simpl. by rewrite app_nil_r.
  - rewrite !fmap_cons. cbn [generate fst]. unfold mbind, M_bind.
    rewrite (on_generate_shard_eq s m) by done.
    rewrite filter_cons. case_decide as Hd.
    + rewrite (request_answered is_height) by done.
      match goal with |- context [generate ?f ?l' ?s1] =>
        generalize (IH s1 Hm Hf); destruct (generate f l' s1) as [r1 s2] end.
      simpl. intros (-> & -> & -> & ->).
      by rewrite <- app_assoc.
    + by apply IH.
Qed.

Lemma filter_seqZ_sorted (P : Z → Prop) `{!∀ x, Decision (P x)} m n :
  StronglySorted Z.lt (filter P (seqZ m n)).
Proof.
  destruct (decide (0 ≤ n)) as [Hn|Hn]; [|by rewrite seqZ_nil by lia; constructor].
  rewrite <- (Z2Nat.id n) by done. clear Hn.
  induction (Z.to_nat n) as [|k IH]; [constructor|].
  rewrite seqZ_S, filter_app. apply StronglySorted_app_2; [|done|].
  - intros x1 x2 [_ H1]%list_elem_of_filter [_ H2]%list_elem_of_filter.
    apply elem_of_seqZ in H1. apply list_elem_of_singleton in H2. lia.
  - rewrite filter_cons, filter_nil. case_decide; repeat constructor.
Qed.

Lemma snoc_neq {A} (l : list A) x : l ++ [x] ≠ l.
Proof.
  intros H. apply (f_equal length) in H. rewrite length_app in H.
  simpl in H. lia.
Qed.

Lemma on_generate_shard_iff s m h seed file_hash N :
  messenger (self s) = Some m → N ≠ 0 → SHARD_SIZE E ≠ 0 →
  in_float_range (max_size (self s)) (SHARD_SIZE E) →
  let r := _on_generate_shard E h seed file_hash N s in
  (trace r.2 = trace s ++ [Sent m (Height h)]
     ↔ due N (last_height E (self s)) h) ∧
  (¬ due N (last_height E (self s)) h → r = (Ret (), s)).
Proof.
  intros Hm HN HS Hf. cbv zeta. rewrite (on_generate_shard_eq s m) by done.
  case_decide as Hd.
  - rewrite request_trace. tauto.
  - simpl. split; [|done]. split; [|done].
    intros H. symmetry in H. by apply snoc_neq in H.
Qed.

End Callback.

(** ** The last height *)

Lemma total_height_floor (a b : Z) :
  0 < b → 0 ≤ a →
  (a `div` b = total_height a b ↔ a `mod` b = 0).
Proof.
  intros Hb Ha. unfold total_height.
  pose proof (Z.div_mod a b ltac:(lia)) as Hd.
  pose proof (Z.mod_pos_bound a b Hb) as Hm.
  destruct (decide (a `mod` b = 0)) as [H0|H0].
  - split; [done|intros _].
    apply (Z.div_unique_pos _ _ _ (b - 1)); lia.
  - split; [|done]. intros H. exfalso.
    assert ((a + b - 1) `div` b = a `div` b + 1) as H1.
    { symmetry. apply (Z.div_unique_pos _ _ _ (a `mod` b - 1)); lia. }
    lia.
Qed.

(** For a capacity below [2 ^ 53] bytes the division of the callback
    raises nothing and its value is the quotient rounded down. *)
Lemma last_height_floor (E : Env) (c : Client) :
  0 < SHARD_SIZE E → 0 ≤ max_size c < 2 ^ 53 →
  in_float_range (max_size c) (SHARD_SIZE E) ∧
  last_height E c = max_size c `div` SHARD_SIZE E.
Proof.
  intros HS Hmax.
  pose proof (int_truediv_floor (max_size c) (SHARD_SIZE E) Hmax HS) as H.
  unfold in_float_range, last_height. rewrite H. split; [|done].
  intros Ht. unfold int_truediv in H. by rewrite Ht in H.
Qed.

(** From [2 ^ 53] bytes on the float of the division may be the next
    integer: for [2 ^ 54 - 1] bytes in shards of [2 ^ 27] the quotient
    rounded down is [2 ^ 27 - 1], the value of the callback [2 ^ 27]. *)
Lemma last_height_rounds_up :
  (2 ^ 54 - 1) `div` 2 ^ 27 = 2 ^ 27 - 1 ∧
  int_truediv (2 ^ 54 - 1) (2 ^ 27) = inr (2 ^ 27).
Proof. by vm_compute. Qed.

(** With a capacity of nine shards and a half and interval 4, a build
    over [ceil(max_size / shard_size) = 10] heights reports the heights
    1, 4, 8 and 9: the ninth, which is not the first, a multiple of 4 or
    the last of the ten, and not the tenth. *)
Lemma ninth_height_reported :
  total_height (max_size (self odd_ready)) (SHARD_SIZE sample_env) = 10 ∧
  trace (checkpoints sample_env 4 10 odd_ready).2 =
    trace odd_ready ++
    ((λ h, Sent (Messaging.Build "http://server" "xprv" 5 30 false) (Height h))
       <$> [1; 4; 8; 9]).
Proof. by vm_compute. Qed.

(** C1, as amended: the callback asks the messenger to report a height
    exactly when the height is 1, a multiple of the interval or the
    callback's own last height [int(max_size / SHARD_SIZE)], which for a
    capacity below [2 ^ 53] bytes is the quotient rounded down, and is
    the [ceil(max_size / shard_size)] of a build exactly when the
    capacity is a multiple of the shard size.  Run for the heights
    1..total in order against a server that accepts the reports, the
    callback sends exactly the heights that are due in this sense, each
    once and in increasing order; for ten heights, last height 10 and
    interval 4 these are 1, 4, 8 and 10. *)
Theorem checkpoint_policy (E : Env) (s : State) (m : Messaging.t) (N : Z) :
  messenger (self s) = Some m → N ≠ 0 → SHARD_SIZE E ≠ 0 →
  in_float_range (max_size (self s)) (SHARD_SIZE E) →
  let T := last_height E (self s) in
  (0 < SHARD_SIZE E → 0 ≤ max_size (self s) < 2 ^ 53 →
     T = max_size (self s) `div` SHARD_SIZE E ∧
     (T = total_height (max_size (self s)) (SHARD_SIZE E)
        ↔ max_size (self s) `mod` SHARD_SIZE E = 0)) ∧
  (∀ h seed file_hash,
     let r := _on_generate_shard E h seed file_hash N s in
     (trace r.2 = trace s ++ [Sent m (Height h)] ↔ due N T h) ∧
     (¬ due N T h → r = (Ret (), s))) ∧
  (∀ total, reliable E →
     let r := checkpoints E N total s in
     r.1 = Ret () ∧
     trace r.2 =
       trace s ++
       ((λ h, Sent m (Height h)) <$> filter (due N T) (seqZ 1 total)) ∧
     StronglySorted Z.lt (filter (due N T) (seqZ 1 total)) ∧
     (total = 10 → T = 10 → N = 4 →
      trace r.2 = trace s ++ ((λ h, Sent m (Height h)) <$> [1; 4; 8; 10]))).
Proof.
  intros Hm HN HS Hf T. split_and!.
  - intros HS' Hmax.
    destruct (last_height_floor E (self s) HS' Hmax) as [_ HT].
    fold T in HT. split; [done|]. rewrite HT.
    apply total_height_floor; lia.
  - intros h seed file_hash. by apply on_generate_shard_iff.
  - intros total Hrel.
    destruct (checkpoints_run E s m N
                ((λ h, (h, EmptyString, EmptyString)) <$> seqZ 1 total))
      as (H1 & _ & _ & H4); [done..|by apply reliable_answers|].
    fold (checkpoints E N total) in H1, H4. fold T in H4.
    rewrite <- !list_fmap_compose, list_fmap_id in H4.
    cbv zeta. split_and!; [done|done|apply filter_seqZ_sorted|].
    intros -> HT ->. by rewrite H4, HT.
Qed.

Lemma checkpoint_policy_witness :
  trace (checkpoints sample_env 4 10 sample_ready).2 =
    trace sample_ready ++
    ((λ h, Sent (Messaging.Build "http://server" "xprv" 5 30 false) (Height h))
       <$> [1; 4; 8; 10]).
Proof.
  destruct (checkpoint_policy sample_env sample_ready
              (Messaging.Build "http://server" "xprv" 5 30 false) 4)
    as (_ & _ & H).
  - reflexivity.
  - lia.
  - vm_compute. discriminate.
  - vm_compute. discriminate.
  - destruct (H 10 (λ _, eq_refl)) as (_ & _ & _ & H').
    apply H'; reflexivity.
Defined.

(** With a capacity of one shard and a half, the final height
    [ceil(max_size / shard_size) = 2] is not the callback's last height
    and is not reported. *)
Lemma final_height_unreported :
  total_height (max_size (self uneven_ready)) (SHARD_SIZE sample_env) = 2 ∧
  last_height sample_env (self uneven_ready) = 1 ∧
  _on_generate_shard sample_env 2 EmptyString EmptyString 25 uneven_ready
    = (Ret (), uneven_ready).
Proof. vm_compute. done. Qed.

(** C2, as amended: for a capacity below [2 ^ 53] bytes the "last"
    condition of the callback holds exactly at the height
    [max_size / SHARD_SIZE] rounded down; that height is
    [ceil(max_size / shard_size)] exactly when [max_size] is a multiple
    of the shard size, and then the final height is reported. *)
Theorem last_checkpoint (E : Env) (s : State) (m : Messaging.t) (N h : Z)
    (seed file_hash : string) :
  messenger (self s) = Some m → N ≠ 0 →
  0 < SHARD_SIZE E → 0 ≤ max_size (self s) < 2 ^ 53 →
  let floor := max_size (self s) `div` SHARD_SIZE E in
  let ceil := total_height (max_size (self s)) (SHARD_SIZE E) in
  let r := _on_generate_shard E h seed file_hash N s in
  last_height E (self s) = floor ∧
  (h ≠ 1 → h `mod` N ≠ 0 →
     (trace r.2 = trace s ++ [Sent m (Height h)] ↔ h = floor)) ∧
  (floor = ceil ↔ max_size (self s) `mod` SHARD_SIZE E = 0) ∧
  (max_size (self s) `mod` SHARD_SIZE E = 0 → h = ceil →
     trace r.2 = trace s ++ [Sent m (Height h)]).
Proof.
  intros Hm HN HS Hmax floor ceil r.
  destruct (last_height_floor E (self s) HS Hmax) as [Hf Hlast].
  fold floor in Hlast.
  destruct (on_generate_shard_iff E s m h seed file_hash N) as [Hiff _];
    [done|done|lia|done|].
  fold r in Hiff. rewrite Hlast in Hiff.
  pose proof (total_height_floor (max_size (self s)) (SHARD_SIZE E) HS
                ltac:(lia)) as Hceil.
  fold floor ceil in Hceil.
  split_and!; [done| |done|].
  - intros H1 H2. rewrite Hiff. unfold due. intuition.
  - intros H0 ->. apply Hiff. unfold due. right; right.
    symmetry. by apply Hceil.
Qed.

Lemma last_checkpoint_witness :
  trace (_on_generate_shard sample_env 10 EmptyString EmptyString 25
           sample_ready).2
    = trace sample_ready
        ++ [Sent (Messaging.Build "http://server" "xprv" 5 30 false) (Height 10)].
Proof.
  destruct (last_checkpoint sample_env sample_ready
              (Messaging.Build "http://server" "xprv" 5 30 false) 25 10
              EmptyString EmptyString)
    as (_ & _ & _ & H).
  - reflexivity.
  - lia.
  - reflexivity.
  - vm_compute. split; discriminate || reflexivity.
  - apply H; reflexivity.
Defined.

(** ** The messenger, once it exists *)

Section Messenger.
Context (E : Env).

Lemma init_messenger_Some s m :
  messenger (self s) = Some m → _init_messenger E s = (Ret (), s).
Proof. intros H. unfold _init_messenger. by rewrite H. Qed.

Lemma send_Some s m c :
  messenger (self s) = Some m → send E c s = request E (Sent m c) s.
Proof. intros H. unfold send. by rewrite H. Qed.

Lemma ping_Some s m :
  messenger (self s) = Some m →
  ping E s = match request E (Sent m Ping) s with
             | (Ret _, s') => (Ret true, s')
             | (Raise e, s') => (Raise e, s')
             | (Running, s') => (Running, s')
             end.
Proof.
  intros H. unfold ping, mbind, M_bind.
  rewrite (init_messenger_Some s m), (send_Some s m) by done.
  by destruct (request E _ s) as [[]].
Qed.

Lemma ping_reliable s m :
  messenger (self s) = Some m → answers E is_ping →
  ping E s =
    (Ret true, mkState (self s)
                 (clock s + Z.of_N (lag E (trace s ++ [Sent m Ping])))
                 (trace s ++ [Sent m Ping]) (cfg_file s)).
Proof.
  intros H Hrel.
  rewrite (ping_Some s m), (request_answered E is_ping) by done. done.
Qed.

End Messenger.

(** ** Polling *)

Section Poll.
Context (E : Env).

(** A sleep that Python and the system take. *)
Lemma time_sleep_answered d s :
  sleepable d → answers E is_slept →
  time_sleep E (Z.of_N d) s =
    (Ret (), mkState (self s)
               (clock s + seconds (Z.of_N d)
                + Z.of_N (lag E (trace s ++ [Slept (Z.of_N d)])))
               (trace s ++ [Slept (Z.of_N d)]) (cfg_file s)).
Proof.
  intros Hd Ha. unfold time_sleep, sleepable in *.
  destruct (Z.ltb_spec (Z.of_N d) 0); [lia|].
  destruct (Z.ltb_spec SLEEP_MAX (Z.of_N d)); [lia|].
  by rewrite Ha.
Qed.

(** A sleep that is too long for Python. *)
Lemma time_sleep_too_long d s :
  ¬ sleepable d → time_sleep E (Z.of_N d) s = (Raise OverflowError, s).
Proof.
  intros Hd. unfold time_sleep, sleepable in *.
  destruct (Z.ltb_spec (Z.of_N d) 0); [lia|].
  by destruct (Z.ltb_spec SLEEP_MAX (Z.of_N d)); [|lia].
Qed.

(** What a sleep leaves behind, whether it was taken or not: the client
    as it was, and at most the one entry in the trace. *)
Lemma time_sleep_cases d s :
  let r := time_sleep E (Z.of_N d) s in
  self r.2 = self s ∧ cfg_file r.2 = cfg_file s ∧ clock s ≤ clock r.2 ∧
  (r = (Raise OverflowError, s) ∧ ¬ sleepable d ∨
   sleepable d ∧ trace r.2 = trace s ++ [Slept (Z.of_N d)] ∧
   (r.1 = Ret () ∧ clock s + seconds (Z.of_N d) ≤ clock r.2 ∧
      reply E (trace r.2) = None ∨
    ∃ e, r.1 = Raise e ∧ reply E (trace r.2) = Some e)).
Proof.
  unfold time_sleep, sleepable.
  destruct (Z.ltb_spec (Z.of_N d) 0); [lia|].
  destruct (Z.ltb_spec SLEEP_MAX (Z.of_N d)).
  - cbn. split_and!; [done|done|lia|]. left. split; [done|lia].
  - destruct (reply E _) as [e|] eqn:Hr;
      cbn [fst snd self cfg_file clock trace]; unfold seconds;
      (split_and!; [done|done|lia|]); right;
      (split_and!; [lia|done|]).
    + right. by exists e.
    + left. split_and!; [done|lia|done].
Qed.

(** One turn of the loop without a stop time. *)
Lemma poll_loop_None_S fuel delay s :
  poll_loop E (S fuel) None delay s =
    match ping E s with
    | (Ret _, s1) =>
        match time_sleep E (Z.of_N delay) s1 with
        | (Ret _, s2) => poll_loop E fuel None delay s2
        | (Raise e, s2) => (Raise e, s2)
        | (Running, s2) => (Running, s2)
        end
    | (Raise e, s1) => (Raise e, s1)
    | (Running, s1) => (Running, s1)
    end.
Proof.
  cbn [poll_loop]. unfold mbind, M_bind.
  by destruct (ping E s) as [[]].
Qed.

(** One turn of the loop with a stop time. *)
Lemma poll_loop_Some_S fuel stop delay s :
  poll_loop E (S fuel) (Some stop) delay s =
    match ping E s with
    | (Ret _, s1) =>
        if stop <=? clock s1 then (Ret true, s1)
        else match time_sleep E (Z.of_N delay) s1 with
             | (Ret _, s2) => poll_loop E fuel (Some stop) delay s2
             | (Raise e, s2) => (Raise e, s2)
             | (Running, s2) => (Running, s2)
             end
    | (Raise e, s1) => (Raise e, s1)
    | (Running, s1) => (Running, s1)
    end.
Proof.
  cbn [poll_loop]. unfold mbind, M_bind.
  destruct (ping E s) as [[] s1]; try done.
  unfold datetime_now; simpl. by destruct (stop <=? clock s1).
Qed.

Lemma poll_loop_None_never_returns fuel delay s b :
  (poll_loop E fuel None delay s).1 ≠ Ret b.
Proof.
  revert s. induction fuel as [|fuel IH]; intros s; [done|].
  rewrite poll_loop_None_S. destruct (ping E s) as [[] s1]; [|done..].
  destruct (time_sleep E _ s1) as [[] s2]; [apply IH|done..].
Qed.

Lemma turns_S m d n :
  turns m d (S n) = Sent m Ping :: Slept (Z.of_N d) :: turns m d n.
Proof. done. Qed.

(** Without a stop time, with a delay that [time.sleep] takes and
    against a server that answers every ping, the loop pings and
    sleeps, turn after turn. *)
Lemma poll_loop_None_trace fuel delay s m :
  messenger (self s) = Some m → sleepable delay → answers E is_poll →
  let r := poll_loop E fuel None delay s in
  r.1 = Running ∧ self r.2 = self s ∧
  trace r.2 =
    trace s ++ turns m delay fuel.
Proof.
  intros Hm Hd Hrel.
  assert (answers E is_ping) as Hp
    by (intros tr [] Hev; try done; apply Hrel; by destruct c).
  assert (answers E is_slept) as Hs
    by (intros tr [] Hev; try done; by apply Hrel).
  revert s Hm.
  induction fuel as [|fuel IH]; intros s Hm.
  - simpl. by rewrite app_nil_r.
  - rewrite poll_loop_None_S, (ping_reliable E s m) by done.
    rewrite time_sleep_answered by done.
    match goal with |- context [poll_loop E fuel None delay ?s1] =>
      destruct (IH s1) as (H1 & H2 & H3); [done|] end.
    cbv zeta. rewrite H1, H2, H3, turns_S. simpl. by rewrite <- !app_assoc.
Qed.

Lemma count_app p tr1 tr2 :
  count p (tr1 ++ tr2) = (count p tr1 + count p tr2)%nat.
Proof. induction tr1 as [|ev tr1 IH]; simpl; [done|]. rewrite IH. lia. Qed.

Lemma count_pings_turns m d n : count is_ping (turns m d n) = n.
Proof.
  induction n as [|n IH]; [done|]. rewrite turns_S. simpl. by rewrite IH.
Qed.

End Poll.

(** ** Creating the messenger *)

Section Init.
Context (E : Env).

Lemma with_messenger_id c m :
  messenger c = Some m → with_messenger (Some m) c = c.
Proof. destruct c; simpl. by intros ->. Qed.

(** What [_init_messenger] does to a ready state: nothing, or one
    construction from the client's own settings. *)
Lemma init_messenger_ready s :
  ready s →
  ∃ m evs,
    _init_messenger E s =
      (Ret (), mkState (with_messenger (Some m) (self s)) (clock s)
                 (trace s ++ evs) (cfg_file s)) ∧
    (messenger (self s) = Some m ∧ evs = [] ∨
     messenger (self s) = None ∧ evs = [New m] ∧
     Messaging.retry_limit m = retry_limit (self s) ∧
     Messaging.retry_delay m = retry_delay (self s)).
Proof.
  intros Hr. unfold ready in Hr. unfold _init_messenger.
  destruct (messenger (self s)) as [m|] eqn:Hm.
  - exists m, []. rewrite app_nil_r, with_messenger_id by done.
    split; [by destruct s|by left].
  - destruct Hr as [Hs|[w Hw]]; [by destruct Hs|]. rewrite Hw.
    eexists _, _. split; [done|]. right. by simpl.
Qed.

Lemma init_messenger_idem s s1 :
  _init_messenger E s = (Ret (), s1) → _init_messenger E s1 = (Ret (), s1).
Proof.
  unfold _init_messenger.
  destruct (messenger (self s)) eqn:Hm.
  - intros [= <-]. by rewrite Hm.
  - destruct (cfg (self s) !! _); [|done]. by intros [= <-].
Qed.

Lemma ping_after_init s s1 :
  _init_messenger E s = (Ret (), s1) → ping E s = ping E s1.
Proof.
  intros H. unfold ping, mbind at 1 3, M_bind at 1 3.
  by rewrite H, (init_messenger_idem s s1 H).
Qed.

Lemma register_after_init s s1 :
  _init_messenger E s = (Ret (), s1) → register E s = register E s1.
Proof.
  intros H. unfold register, mbind at 1 4, M_bind at 1 4.
  by rewrite H, (init_messenger_idem s s1 H).
Qed.

Lemma register_reliable s m a :
  messenger (self s) = Some m → answers E is_register →
  cfg (self s) !! "payout_address"%string = Some a →
  register E s =
    (Ret true, mkState (self s)
                 (clock s + Z.of_N (lag E (trace s ++ [Sent m (Register a)])))
                 (trace s ++ [Sent m (Register a)]) (cfg_file s)).
Proof.
  intros Hm Hrel Ha. unfold register, mbind, M_bind.
  rewrite (init_messenger_Some E s m) by done.
  unfold cfg_get.
  rewrite Ha, (send_Some E s m), (request_answered E is_register) by done.
  done.
Qed.

End Init.

Section PollForever.
Context (E : Env).

Lemma poll_loop_after_init fuel stop delay s s1 :
  _init_messenger E s = (Ret (), s1) →
  poll_loop E (S fuel) stop delay s = poll_loop E (S fuel) stop delay s1.
Proof.
  intros H. cbn [poll_loop]. unfold mbind, M_bind.
  by rewrite (ping_after_init E s s1 H).
Qed.

(** [poll] is the optional [register] followed by the loop. *)
Lemma poll_None_eq fuel register_address delay s :
  poll E fuel register_address delay None s =
    if register_address
    then match register E s with
         | (Ret _, s1) => poll_loop E fuel None delay s1
         | (Raise e, s1) => (Raise e, s1)
         | (Running, s1) => (Running, s1)
         end
    else poll_loop E fuel None delay s.
Proof.
  unfold poll, mbind, M_bind. simpl. destruct register_address; [|done].
  by destruct (register E s) as [[]].
Qed.

Lemma poll_loop_None_pings fuel delay s :
  ready s → sleepable delay → answers E is_poll →
  let r := poll_loop E fuel None delay s in
  r.1 = Running ∧
  count is_ping (trace r.2) = (count is_ping (trace s) + fuel)%nat.
Proof.
  intros Hr Hd Hrel. destruct fuel as [|fuel]; [simpl; split; [done|lia]|].
  destruct (init_messenger_ready E s Hr) as (m & evs & Hi & Hev).
  rewrite (poll_loop_after_init _ _ _ _ _ Hi).
  match goal with |- context [poll_loop E _ None delay ?s1] =>
    destruct (poll_loop_None_trace E (S fuel) delay s1 m) as (H1 & _ & H3);
    [done|done|done|] end.
  cbv zeta. rewrite H1, H3. split; [done|].
  cbn [trace]. rewrite !count_app, count_pings_turns.
  destruct Hev as [[_ ->]|(_ & -> & _)]; simpl; lia.
Qed.

Lemma poll_None_never_returns fuel register_address delay s b :
  (poll E fuel register_address delay None s).1 ≠ Ret b.
Proof.
  rewrite poll_None_eq. destruct register_address;
    [|apply poll_loop_None_never_returns].
  destruct (register E s) as [[] s1]; [|done..].
  apply poll_loop_None_never_returns.
Qed.

(** With a delay that is too long for [time.sleep] the loop ends at its
    first sleep. *)
Lemma poll_loop_too_long fuel stop delay s m :
  messenger (self s) = Some m → answers E is_ping → ¬ sleepable delay →
  (∀ t, stop = Some t → clock (ping E s).2 < t) →
  poll_loop E (S fuel) stop delay s =
    (Raise OverflowError, (ping E s).2) ∧
  trace (ping E s).2 = trace s ++ [Sent m Ping].
Proof.
  intros Hm Hp Hd Hstop. cbn [poll_loop]. unfold mbind, M_bind.
  revert Hstop. rewrite (ping_reliable E s m) by done. cbn [snd]. intros Hstop.
  split; [|done]. destruct stop as [t|]; unfold datetime_now; cbn.
  - specialize (Hstop t eq_refl). cbn in Hstop.
    destruct (Z.leb_spec t (clock s + Z.of_N (lag E (trace s ++ [Sent m Ping]))));
      [lia|].
    by rewrite time_sleep_too_long.
  - by rewrite time_sleep_too_long.
Qed.

End PollForever.

(** A delay of [10 ^ 10] seconds is more than [time.sleep] takes: without
    a limit and against a server that answers, [poll] pings once and
    ends with [OverflowError]. *)
Lemma long_delay_ends_poll :
  (poll sample_env 5 false 10000000000 None sample_state).1
    = Raise OverflowError ∧
  count is_ping
    (trace (poll sample_env 5 false 10000000000 None sample_state).2) = 1%nat.
Proof. by vm_compute. Qed.

(** C6, as amended: without a limit [poll] never returns.  With a delay
    that [time.sleep] takes, and while the server answers and the
    sleeps are taken, every further turn of the loop performs a further
    ping; with a longer delay the loop ends with [OverflowError] at its
    first sleep, after one ping. *)
Theorem poll_without_limit (E : Env) (fuel : nat) (register_address : bool)
    (delay : N) (s : State) :
  (∀ b, (poll E fuel register_address delay None s).1 ≠ Ret b) ∧
  (reliable E → ready s → sleepable delay →
   (register_address = true →
    is_Some (cfg (self s) !! "payout_address"%string)) →
   let r := poll E fuel register_address delay None s in
   r.1 = Running ∧
   count is_ping (trace r.2) = (count is_ping (trace s) + fuel)%nat) ∧
  (reliable E → ready s → ¬ sleepable delay →
   register_address = false → (0 < fuel)%nat →
   let r := poll E fuel register_address delay None s in
   r.1 = Raise OverflowError ∧
   count is_ping (trace r.2) = (count is_ping (trace s) + 1)%nat).
Proof.
  split_and!.
  - intros b. apply poll_None_never_returns.
  - rewrite poll_None_eq.
    intros Hrel Hr Hd Hpay.
    pose proof (reliable_answers E is_poll Hrel) as Hping.
    pose proof (reliable_answers E is_register Hrel) as Hreg.
    destruct register_address;
      [|by apply poll_loop_None_pings].
    destruct (Hpay eq_refl) as [a Ha].
    destruct (init_messenger_ready E s Hr) as (m & evs & Hi & Hev).
    rewrite (register_after_init E _ _ Hi).
    rewrite (register_reliable E _ m a) by done.
    match goal with |- context [poll_loop E _ None delay ?s1] =>
      destruct (poll_loop_None_pings E fuel delay s1) as [H1 H2];
      [by left|done|done|] end.
    cbv zeta. split; [done|]. etransitivity; [exact H2|].
    cbn [trace]. rewrite !count_app.
    destruct Hev as [[_ ->]|(_ & -> & _)]; simpl; lia.
  - intros Hrel Hr Hd -> Hfuel. rewrite poll_None_eq.
    destruct fuel as [|fuel]; [lia|].
    destruct (init_messenger_ready E s Hr) as (m & evs & Hi & Hev).
    rewrite (poll_loop_after_init _ _ _ _ _ _ Hi).
    match goal with |- context [poll_loop E _ None delay ?s1] =>
      destruct (poll_loop_too_long E fuel None delay s1 m) as [-> H2];
      [done|by apply reliable_answers|done|done|] end.
    cbv zeta. split; [done|]. cbn [snd]. rewrite H2.
    cbn [trace]. rewrite !count_app.
    destruct Hev as [[_ ->]|(_ & -> & _)]; simpl; lia.
Qed.

Lemma poll_without_limit_witness :
  (poll sample_env 7 true 2 None sample_state).1 = Running ∧
  count is_ping (trace (poll sample_env 7 true 2 None sample_state).2) = 7%nat.
Proof.
  destruct (poll_without_limit sample_env 7 true 2 sample_state)
    as (_ & H & _).
  apply H.
  - intros tr. reflexivity.
  - right. vm_compute. eauto.
  - vm_compute. discriminate.
  - intros _. vm_compute. eauto.
Defined.

(** C10: a limit of 0 is no limit: no stop time is set and [poll] never
    returns. *)
Theorem poll_limit_zero (E : Env) (fuel : nat) (register_address : bool)
    (delay : N) (s : State) :
  poll E fuel register_address delay (Some 0) s =
    poll E fuel register_address delay None s ∧
  ∀ b, (poll E fuel register_address delay (Some 0) s).1 ≠ Ret b.
Proof.
  split; [done|]. change (poll E fuel register_address delay (Some 0) s)
    with (poll E fuel register_address delay None s).
  apply poll_None_never_returns.
Qed.

(** ** What a program asks of its collaborators

    A small program logic: [emits I P m] is shown once for every method
    of the client, for any invariant [I] and any set of events [P] that
    allow what the method does. *)

Section Frame.
Context (E : Env) (I : State → Prop) (P : Event → Prop).

Lemma steps_refl s : steps P s s.
Proof. split; [lia|]. exists []. by rewrite app_nil_r. Qed.

Lemma steps_same s s' :
  clock s' = clock s → trace s' = trace s → steps P s s'.
Proof.
  intros Hc Ht. split; [lia|]. exists []. by rewrite app_nil_r.
Qed.

Lemma steps_trans s1 s2 s3 : steps P s1 s2 → steps P s2 s3 → steps P s1 s3.
Proof.
  intros [Hc1 (e1 & H1 & F1)] [Hc2 (e2 & H2 & F2)]. split; [lia|].
  exists (e1 ++ e2). rewrite H2, H1, app_assoc. split; [done|].
  by apply Forall_app.
Qed.

Lemma steps_one s s' ev :
  P ev → clock s ≤ clock s' → trace s' = trace s ++ [ev] → steps P s s'.
Proof.
  intros HP Hd Ht. split; [done|]. exists [ev]. split; [done|].
  by constructor.
Qed.

Lemma emits_skip {A} (r : result A) : emits I P (λ s, (r, s)).
Proof. intros s HI. split; [done|apply steps_refl]. Qed.

Lemma emits_ret {A} (a : A) : emits I P (mret a).
Proof. apply emits_skip. Qed.

Lemma emits_raise {A} e : emits I P (raise e : M A).
Proof. apply emits_skip. Qed.

Lemma emits_running {A} : emits I P (running : M A).
Proof. apply emits_skip. Qed.

Lemma emits_bind {A B} (m : M A) (f : A → M B) :
  emits I P m → (∀ a, emits I P (f a)) → emits I P (m ≫= f).
Proof.
  intros Hm Hf s HI. specialize (Hm s HI).
  unfold mbind, M_bind. destruct (m s) as [[a|e|] s1]; simpl in *; try done.
  destruct Hm as [HI1 Hs1]. destruct (Hf a s1 HI1) as [HI2 Hs2].
  split; [done|]. by eapply steps_trans.
Qed.

Lemma emits_try_except_pass e body :
  emits I P body → emits I P (try_except_pass e body).
Proof.
  intros Hb s HI. specialize (Hb s HI). unfold try_except_pass.
  destruct (body s) as [[a|e'|] s1]; simpl in *; try done.
  by case_decide.
Qed.

Lemma emits_cfg_get key : emits I P (cfg_get key).
Proof.
  intros s HI. unfold cfg_get.
  destruct (cfg (self s) !! key); (split; [done|apply steps_refl]).
Qed.

Lemma emits_datetime_now : emits I P datetime_now.
Proof. intros s HI. split; [done|apply steps_refl]. Qed.

Lemma emits_timedelta secs : emits I P (timedelta secs).
Proof.
  intros s HI. unfold timedelta.
  destruct (_ && _); (split; [done|apply steps_refl]).
Qed.

Lemma emits_datetime_add t d : emits I P (datetime_add t d).
Proof.
  intros s HI. unfold datetime_add.
  destruct (_ && _); (split; [done|apply steps_refl]).
Qed.

Context (Hclosed : closed E I P).

Lemma emits_request ev :
  P ev → is_new ev = false → emits I P (request E ev).
Proof.
  intros HP Hn s HI. unfold request.
  destruct (reply E _); simpl;
    (split; [by eapply (closed_event _ _ _ Hclosed s _ ev)
            |by apply (steps_one _ _ ev); [|simpl; lia|]]).
Qed.

Lemma emits_send call : allows I P call → emits I P (send E call).
Proof.
  intros Ha s HI. unfold send.
  destruct (messenger (self s)) as [m|] eqn:Hm.
  - apply emits_request; [|done..]. by eapply Ha.
  - split; [done|apply steps_refl].
Qed.

Lemma emits_time_sleep d :
  P (Slept d) → 0 ≤ d → emits I P (time_sleep E d).
Proof.
  intros HP Hd s HI. unfold time_sleep.
  destruct (d <? 0); [split; [done|apply steps_refl]|].
  destruct (SLEEP_MAX <? d); [split; [done|apply steps_refl]|].
  destruct (reply E _); unfold seconds; simpl;
    (split; [by eapply (closed_event _ _ _ Hclosed s _ (Slept d))
            |by apply (steps_one _ _ (Slept d)); [|simpl; lia|]]).
Qed.

Lemma emits_init_messenger : emits I P (_init_messenger E).
Proof.
  intros s HI. unfold _init_messenger.
  destruct (messenger (self s)) eqn:Hm; [split; [done|apply steps_refl]|].
  destruct (cfg (self s) !! _) as [w|]; [|split; [done|apply steps_refl]].
  destruct (closed_new _ _ _ Hclosed s w HI Hm) as [HI' HP]. split; [done|].
  by eapply steps_one; [|simpl; lia|].
Qed.

Lemma emits_register :
  (∀ a, allows I P (Register a)) → emits I P (register E).
Proof.
  intros Ha. unfold register.
  apply emits_bind; [by apply emits_init_messenger|intros _].
  apply emits_bind; [apply emits_cfg_get|intros a].
  apply emits_bind; [by apply emits_send|intros _]. apply emits_ret.
Qed.

Lemma emits_ping : allows I P Ping → emits I P (ping E).
Proof.
  intros Ha. unfold ping.
  apply emits_bind; [by apply emits_init_messenger|intros _].
  apply emits_bind; [by apply emits_send|intros _]. apply emits_ret.
Qed.

Lemma emits_poll_loop fuel stop_time delay :
  allows I P Ping → (∀ d, P (Slept d)) →
  emits I P (poll_loop E fuel stop_time delay).
Proof.
  intros Ha Hs. induction fuel as [|fuel IH]; [apply emits_running|].
  cbn [poll_loop].
  apply emits_bind; [by apply emits_ping|intros _].
  apply emits_bind.
  - destruct stop_time; [|apply emits_ret].
    apply emits_bind; [apply emits_datetime_now|intros ?; apply emits_ret].
  - intros [|]; [apply emits_ret|].
    apply emits_bind; [|done]. apply emits_time_sleep; [done|lia].
Qed.

Lemma emits_poll fuel register_address delay limit :
  allows I P Ping → (∀ d, P (Slept d)) →
  (register_address = true → ∀ a, allows I P (Register a)) →
  emits I P (poll E fuel register_address delay limit).
Proof.
  intros Ha Hs Hr. unfold poll.
  apply emits_bind.
  - destruct limit; [|apply emits_ret].
    destruct (truthy_int _); [|apply emits_ret].
    apply emits_bind; [apply emits_datetime_now|intros now].
    apply emits_bind; [apply emits_timedelta|intros d].
    apply emits_bind; [apply emits_datetime_add|intros ?; apply emits_ret].
  - intros stop_time. apply emits_bind; [|intros _; by apply emits_poll_loop].
    destruct register_address; [|apply emits_ret].
    apply emits_bind; [|intros ?; apply emits_ret].
    apply emits_register; auto.
Qed.

Lemma emits_on_generate_shard h seed file_hash interval :
  allows I P (Height h) →
  emits I P (_on_generate_shard E h seed file_hash interval).
Proof.
  intros Ha s HI. unfold _on_generate_shard.
  destruct (interval =? 0); [split; [done|apply steps_refl]|].
  destruct (int_truediv _ _); [split; [done|apply steps_refl]|].
  destruct (_ || _); [by apply emits_send|split; [done|apply steps_refl]].
Qed.

Lemma emits_generate f l :
  (∀ h seed file_hash, emits I P (f h seed file_hash)) →
  emits I P (generate f l).
Proof.
  intros Hf. induction l as [|[[h seed] file_hash] l IH]; [apply emits_ret|].
  cbn [generate]. apply emits_bind; [apply Hf|done].
Qed.

Lemma emits_build cleanup rebuild set_height_interval num_cores :
  (∀ h, allows I P (Height h)) →
  P (Built cleanup rebuild num_cores) →
  emits I P (build E cleanup rebuild set_height_interval num_cores).
Proof.
  intros Ha Hb. unfold build.
  apply emits_bind; [by apply emits_init_messenger|intros _].
  apply emits_bind; [apply emits_cfg_get|intros _].
  assert (∀ l, emits I P
            (generate (λ h seed file_hash,
               _on_generate_shard E h seed file_hash
                 (Z.pos set_height_interval)) l)) as Hg.
  { intros l. apply emits_generate. intros.
    by apply emits_on_generate_shard. }
  intros s HI. unfold bldr_build.
  destruct (emits_request (Built cleanup rebuild num_cores) Hb eq_refl s HI)
    as [HI1 Hs1].
  destruct (request E _ s) as [[u|e|] s1]; cbn [snd] in *; [| |done].
  - destruct (emits_bind _ (λ _, mret (generated E)) (Hg (shards E))
                (λ _, emits_ret _) s1 HI1) as [HI2 Hs2].
    split; [done|]. by eapply steps_trans.
  - destruct (emits_bind _ (λ _, raise e : M Z) (Hg (written E))
                (λ _, emits_raise _) s1 HI1) as [HI2 Hs2].
    split; [done|]. by eapply steps_trans.
Qed.

Lemma emits_cfg_set key v : emits I P (cfg_set key v).
Proof.
  intros s HI. split; [by apply (closed_cfg _ _ _ Hclosed)|].
  by apply steps_same.
Qed.

Lemma emits_config_save : (∀ d, P (Saved d)) → emits I P (config_save E).
Proof.
  intros HP s HI. unfold config_save, request.
  destruct (reply E _); simpl;
    (split; [by eapply (closed_event _ _ _ Hclosed s _ (Saved _))
            |by eapply steps_one; [|simpl; lia|]]).
Qed.

Lemma emits_config set_wallet set_payout_address :
  (∀ d, P (Saved d)) →
  emits I P (config E set_wallet set_payout_address).
Proof.
  intros HP. unfold config.
  apply emits_bind.
  { destruct set_payout_address; [|apply emits_ret].
    destruct (validate_address E _); [apply emits_ret|apply emits_raise]. }
  intros _. apply emits_bind.
  { destruct set_wallet; [|apply emits_ret].
    destruct (validate_wallet E _); [apply emits_ret|apply emits_raise]. }
  intros _. apply emits_bind; [apply emits_init_messenger|intros _].
  apply emits_bind.
  { destruct set_payout_address; [|apply emits_ret].
    destruct (truthy_str _); [|apply emits_ret].
    apply emits_bind; [apply emits_cfg_set|intros _; apply emits_ret]. }
  intros u1. apply emits_bind.
  { destruct set_wallet; [|apply emits_ret].
    destruct (truthy_str _); [|apply emits_ret].
    apply emits_bind; [apply emits_cfg_set|intros _; apply emits_ret]. }
  intros u2. apply emits_bind.
  { destruct u2; [by apply emits_config_save|apply emits_ret]. }
  intros _. apply emits_bind; [apply emits_cfg_get|intros _].
  intros s HI. split; [done|apply steps_refl].
Qed.

Lemma emits_set_messenger_retry_limit v :
  closed_set v I → emits I P (set_messenger_retry_limit v).
Proof.
  intros Hset s HI. unfold set_messenger_retry_limit.
  destruct (messenger (self s)) as [m|] eqn:Hm;
    [|split; [done|apply steps_refl]].
  split; [by apply Hset|by apply steps_same].
Qed.

Lemma emits_farm fuel :
  closed_set NEVER_GIVES_UP I →
  (∀ call, allows I P call) → (∀ d, P (Slept d)) →
  (∀ c r n, P (Built c r n)) →
  emits I P (farm E fuel).
Proof.
  intros Hset Ha Hs Hb. unfold farm.
  apply emits_bind; [apply emits_init_messenger|intros _].
  apply emits_bind; [by apply emits_set_messenger_retry_limit|intros _].
  apply emits_bind.
  { apply emits_try_except_pass, emits_bind;
      [by apply emits_register|intros _; apply emits_ret]. }
  intros _. apply emits_bind; [by apply emits_build|intros _].
  apply emits_bind; [by apply emits_poll|intros _; apply emits_ret].
Qed.

End Frame.

(** Where nothing is to be kept, allowing the construction is enough. *)
Lemma closed_True (E : Env) (P : Event → Prop) :
  (∀ m, P (New m)) → closed E (λ _, True) P.
Proof. intros HP. by split. Qed.

(** ** Polling up to a stop time *)

Section PollLimit.
Context (E : Env).

Lemma ping_Ret s m b s1 :
  messenger (self s) = Some m → ping E s = (Ret b, s1) →
  messenger (self s1) = Some m ∧ clock s ≤ clock s1 ∧
  trace s1 = trace s ++ [Sent m Ping].
Proof.
  intros Hm. rewrite (ping_Some E s m) by done. unfold request.
  destruct (reply E _); [done|]. intros [= _ <-]. simpl.
  split_and!; [done|lia|done].
Qed.

Lemma time_sleep_spec d s u s' :
  time_sleep E (Z.of_N d) s = (Ret u, s') →
  self s' = self s ∧ clock s + seconds (Z.of_N d) ≤ clock s' ∧
  trace s' = trace s ++ [Slept (Z.of_N d)].
Proof.
  intros H. destruct (time_sleep_cases E d s) as (H1 & _ & _ & H4).
  rewrite H in H1, H4. cbn [fst snd] in *.
  destruct H4 as [[[=] _]|(_ & H5 & [(_ & H6 & _)|(e & [=] & _)])].
  done.
Qed.

(** When the loop returns, it returns [True] at or after the stop
    time, after [n] turns of a ping and a sleep and a last ping; the
    checks of those [n] turns all came before the stop time. *)
Lemma poll_loop_Some_shape fuel stop d s m b :
  messenger (self s) = Some m →
  let r := poll_loop E fuel (Some stop) d s in
  r.1 = Ret b →
  b = true ∧ stop ≤ clock r.2 ∧
  ∃ n, (n < fuel)%nat ∧
    trace r.2 = trace s ++ turns m d n ++ [Sent m Ping] ∧
    (n = O → r.2 = (ping E s).2) ∧
    ((0 < n)%nat →
     clock (ping E s).2 + Z.of_nat (n - 1) * seconds (Z.of_N d) < stop).
Proof.
  revert s. induction fuel as [|fuel IH]; intros s Hm; [done|].
  cbv zeta. rewrite poll_loop_Some_S.
  destruct (ping E s) as [[b1|e|] s1] eqn:Hp; [|done..].
  destruct (ping_Ret s m b1 s1 Hm Hp) as (Hm1 & Hc1 & Ht1).
  destruct (Z.leb_spec stop (clock s1)) as [Hle|Hlt].
  - simpl. intros [= <-]. split_and!; [done..|].
    exists O. split_and!; [lia|done|done|lia].
  - destruct (time_sleep E (Z.of_N d) s1) as [[u|e|] s2] eqn:Hsl; [|done..].
    destruct (time_sleep_spec d s1 u s2 Hsl) as (Hs2 & Hc2 & Ht2).
    intros Hr. destruct (IH s2) as (-> & Hstop & n & Hn & Ht & H0 & Hpos);
      [by rewrite Hs2|done|].
    split_and!; [done..|]. exists (S n).
    split_and!; [lia| |done|].
    + rewrite Ht, Ht2, Ht1, turns_S. by rewrite <- !app_assoc.
    + intros _. simpl. destruct n as [|n]; [simpl; lia|].
      specialize (Hpos ltac:(lia)).
      destruct (ping E s2) as [[b2|e|] s3] eqn:Hp2.
      * destruct (ping_Ret s2 m b2 s3) as (_ & Hc3 & _);
          [by rewrite Hs2|done|].
        simpl in *. unfold seconds in *.
        replace (S n - 0)%nat with (S n) by lia.
        replace (S n - 1)%nat with n in Hpos by lia. lia.
      * exfalso. revert Hr.
        destruct fuel; [done|]. by rewrite poll_loop_Some_S, Hp2.
      * exfalso. revert Hr.
        destruct fuel; [done|]. by rewrite poll_loop_Some_S, Hp2.
Qed.

Lemma answers_poll :
  answers E is_poll → answers E is_ping ∧ answers E is_slept.
Proof.
  intros H. split; intros tr [] Hev; try done; apply H; by try destruct c.
Qed.

(** Against a server that answers, with sleeps that are taken, the loop
    returns once the sleeps alone have reached the stop time. *)
Lemma poll_loop_Some_returns fuel stop d s m :
  messenger (self s) = Some m → sleepable d → answers E is_poll →
  (0 < fuel)%nat →
  stop - clock s ≤ Z.of_nat (fuel - 1) * seconds (Z.of_N d) →
  (poll_loop E fuel (Some stop) d s).1 = Ret true.
Proof.
  intros Hm Hd [Hrel Hsl]%answers_poll. revert s Hm.
  induction fuel as [|fuel IH]; intros s Hm Hf Hb; [lia|].
  rewrite poll_loop_Some_S, (ping_reliable E s m) by done.
  match goal with |- context [stop <=? clock ?s1] =>
    destruct (Z.leb_spec stop (clock s1)) as [Hle|Hlt] end; [done|].
  rewrite time_sleep_answered by done.
  simpl in Hlt.
  destruct (decide (fuel = O)) as [->|Hne]; [simpl in *; lia|].
  apply IH; [done|lia|]. simpl. unfold seconds in *.
  replace (S fuel - 1)%nat with (S (fuel - 1)) in Hb by lia. lia.
Qed.

End PollLimit.

Section PollLimitTop.
Context (E : Env).

(** A stop time that is no [datetime] ends [poll] before anything is
    done. *)
Lemma poll_overflow fuel register_address delay limit s :
  limit ≠ 0 → ¬ representable (clock s) limit →
  poll E fuel register_address delay (Some limit) s = (Raise OverflowError, s).
Proof.
  intros Hl Hrep. unfold poll, truthy_int.
  destruct (Z.eqb_spec limit 0) as [|_]; [done|]. cbn [negb].
  unfold datetime_now, timedelta, datetime_add, mbind, M_bind.
  unfold representable in Hrep.
  destruct (Z.leb_spec (-999999999) (limit `div` 86400)),
    (Z.leb_spec (limit `div` 86400) 999999999); cbn; try done.
  destruct (Z.leb_spec 0 (clock s + seconds limit)),
    (Z.ltb_spec (clock s + seconds limit) DATETIME_END); cbn; try done.
  lia.
Qed.

Lemma poll_Some_eq fuel register_address delay limit s :
  limit ≠ 0 → representable (clock s) limit →
  poll E fuel register_address delay (Some limit) s =
    if register_address
    then match register E s with
         | (Ret _, s1) =>
             poll_loop E fuel (Some (clock s + seconds limit)) delay s1
         | (Raise e, s1) => (Raise e, s1)
         | (Running, s1) => (Running, s1)
         end
    else poll_loop E fuel (Some (clock s + seconds limit)) delay s.
Proof.
  intros Hl ([Hd1 Hd2] & Hs1 & Hs2). unfold poll, truthy_int.
  destruct (Z.eqb_spec limit 0) as [|_]; [done|]. cbn [negb].
  unfold datetime_now, timedelta, datetime_add, mbind, M_bind.
  destruct (Z.leb_spec (-999999999) (limit `div` 86400)); [|lia].
  destruct (Z.leb_spec (limit `div` 86400) 999999999); [|lia].
  cbn [andb].
  destruct (Z.leb_spec 0 (clock s + seconds limit)); [|lia].
  destruct (Z.ltb_spec (clock s + seconds limit) DATETIME_END); [|lia].
  cbn [andb]. unfold mret, M_ret.
  destruct register_address; [|done].
  by destruct (register E s) as [[]].
Qed.




End PollLimitTop.




(** ** Changing the configuration *)

(** With a wallet and a payout address that are both invalid, [config]
    raises [InvalidAddress]. *)
Lemma config_both_invalid :
  validate_wallet sample_env "bad" = false ∧
  config sample_env (Some "bad"%string) (Some "bad"%string) sample_state
    = (Raise (InvalidAddress "bad"), sample_state) ∧
  (config sample_env (Some "bad"%string) (Some "bad"%string) sample_state).1
    ≠ Raise (InvalidHWIF "bad").
Proof. vm_compute. done. Qed.

(** C7, as amended: a payout address that is given and not valid makes
    [config] raise [InvalidAddress]; a wallet that is given and not
    valid makes it raise [InvalidHWIF] when the payout address is not
    given or is valid (the address is checked first).  In both cases the
    client, the saved configuration and the trace are as before: nothing
    was changed, saved or asked of the server, and nothing is tried
    again. *)
Theorem config_rejects_invalid (E : Env) (s : State)
    (set_wallet set_payout_address : option string) :
  (∀ a, set_payout_address = Some a → validate_address E a = false →
     config E set_wallet set_payout_address s = (Raise (InvalidAddress a), s)) ∧
  (∀ w, set_wallet = Some w → validate_wallet E w = false →
     (∀ a, set_payout_address = Some a → validate_address E a = true) →
     config E set_wallet set_payout_address s = (Raise (InvalidHWIF w), s)).
Proof.
  split.
  - intros a -> Ha. unfold config, mbind at 1, M_bind at 1. by rewrite Ha.
  - intros w -> Hw Hpay. unfold config, mbind at 1 2, M_bind at 1 2.
    rewrite Hw. destruct set_payout_address as [a|]; [|done].
    by rewrite (Hpay a eq_refl).
Qed.

Lemma config_rejects_invalid_witness :
  config sample_env (Some "bad"%string) (Some "1payout"%string) sample_state
    = (Raise (InvalidHWIF "bad"), sample_state) ∧
  config sample_env (Some "xprv"%string) (Some "bad"%string) sample_state
    = (Raise (InvalidAddress "bad"), sample_state).
Proof.
  split.
  - apply (config_rejects_invalid sample_env sample_state
             (Some "bad"%string) (Some "1payout"%string)).
    + reflexivity.
    + reflexivity.
    + intros a [= <-]. reflexivity.
  - apply (config_rejects_invalid sample_env sample_state
             (Some "xprv"%string) (Some "bad"%string)).
    + reflexivity.
    + reflexivity.
Defined.

(** ** Retrying *)

Lemma resilient_exhausted server delay remaining made :
  (∀ k, server k = Transient) →
  resilient server delay remaining made
    = (Some ConnectionExhausted, attempts delay remaining).
Proof.
  intros Hs. revert made.
  induction remaining as [|n IH]; intros made; [done|].
  cbn [resilient]. rewrite Hs, IH. by destruct n.
Qed.

Lemma attempts_count delay n :
  length (filter (λ st, is_attempt st = true) (attempts delay n)) = n.
Proof.
  destruct n as [|n]; [done|]. unfold attempts.
  rewrite filter_cons_True by done. cbn [length]. f_equal.
  induction n as [|n IH]; [done|].
  change (mjoin (replicate (S n) [Wait delay; Attempt]))
    with (Wait delay :: Attempt :: mjoin (replicate n [Wait delay; Attempt])).
  rewrite filter_cons_False, filter_cons_True by done.
  cbn [length]. by rewrite IH.
Qed.

Lemma remote_exhausted (m : Messaging.t) (server : nat → Outcome) :
  (∀ k, server k = Transient) →
  0 ≤ Messaging.retry_limit m →
  remote m server =
    (Some ConnectionExhausted,
     attempts (Messaging.retry_delay m) (Z.to_nat (Messaging.retry_limit m))) ∧
  Z.of_nat (length (filter (λ st, is_attempt st = true) (remote m server).2))
    = Messaging.retry_limit m.
Proof.
  intros Hs Hl. unfold remote. rewrite resilient_exhausted by done.
  split; [done|]. simpl. rewrite attempts_count. lia.
Qed.

(** C8: the messenger of a client gets the retry policy
    [(retry_limit, retry_delay)] of the client; against a server that
    always fails transiently it makes exactly [retry_limit] attempts
    with a wait of [retry_delay] seconds between one attempt and the
    next, and then raises [ConnectionExhausted]; three attempts for the
    policy [(3, 0)]. *)
Theorem retry_exhaustion (E : Env) (s : State) (server : nat → Outcome) :
  messenger (self s) = None →
  is_Some (cfg (self s) !! "wallet"%string) →
  (∀ k, server k = Transient) →
  0 ≤ retry_limit (self s) →
  let limit := retry_limit (self s) in
  let delay := retry_delay (self s) in
  ∃ m, messenger (self (_init_messenger E s).2) = Some m ∧
    (remote m server).1 = Some ConnectionExhausted ∧
    (remote m server).2 = attempts delay (Z.to_nat limit) ∧
    Z.of_nat (length (filter (λ st, is_attempt st = true) (remote m server).2))
      = limit ∧
    (limit = 3 → delay = 0 →
     (remote m server).2 = [Attempt; Wait 0; Attempt; Wait 0; Attempt]).
Proof.
  intros Hm Hw Hs Hl limit delay.
  destruct (init_messenger_ready E s (or_intror Hw))
    as (m & evs & Hi & [[Hm' _]|(_ & _ & HL & HD)]); [congruence|].
  exists m. rewrite Hi. split; [done|].
  destruct (remote_exhausted m server Hs) as [Hr Hc]; [by rewrite HL|].
  rewrite Hr in *. rewrite HL, HD in *. fold limit delay in Hc |- *.
  split_and!; [done..|]. by intros -> ->.
Qed.

Lemma retry_exhaustion_witness :
  ∃ m, messenger (self (_init_messenger sample_env impatient_state).2) = Some m ∧
    remote m (λ _, Transient)
      = (Some ConnectionExhausted, [Attempt; Wait 0; Attempt; Wait 0; Attempt]).
Proof.
  destruct (retry_exhaustion sample_env impatient_state (λ _, Transient))
    as (m & Hm & H1 & _ & _ & H4).
  - reflexivity.
  - vm_compute. eauto.
  - reflexivity.
  - vm_compute. discriminate.
  - exists m. split; [exact Hm|].
    rewrite (surjective_pairing (remote _ _)), H1, H4; reflexivity.
Defined.

(** ** Farming *)

Section Farm.
Context (E : Env).

Lemma answers_mono (p q : Event → bool) :
  (∀ ev, p ev = true → q ev = true) → answers E q → answers E p.
Proof. intros H Hq tr ev Hp. apply Hq. by apply H. Qed.

(** The default delay is one that [time.sleep] takes. *)
Lemma default_delay_sleepable : sleepable (DEFAULT_DELAY E).
Proof. apply Z.leb_le, DEFAULT_DELAY_sleeps. Qed.

Lemma build_run cleanup rebuild interval cores s m a :
  messenger (self s) = Some m →
  cfg (self s) !! "payout_address"%string = Some a →
  SHARD_SIZE E ≠ 0 → in_float_range (max_size (self s)) (SHARD_SIZE E) →
  answers E is_height → answers E is_built →
  let r := build E cleanup rebuild interval cores s in
  r.1 = Ret (generated E) ∧ self r.2 = self s ∧
  trace r.2 =
    trace s ++ build_events E (self s) m cleanup rebuild interval cores.
Proof.
  intros Hm Ha HS Hf Hh Hb. unfold build, bldr_build, mbind, M_bind.
  rewrite (init_messenger_Some E s m) by done.
  unfold cfg_get. rewrite Ha.
  rewrite (request_answered E is_built) by done.
  match goal with |- context [generate ?f ?l ?s1] =>
    generalize (checkpoints_run E s1 m (Z.pos interval) l Hm
                  ltac:(lia) HS Hf Hh);
    destruct (generate f l s1) as [r1 s2] end.
  simpl. intros (-> & H2 & _ & H4). simpl.
  split_and!; [done..|]. rewrite H4. unfold build_events.
  by rewrite <- app_assoc.
Qed.

Lemma try_register_run s m a :
  messenger (self s) = Some m →
  cfg (self s) !! "payout_address"%string = Some a →
  (reply E (trace s ++ [Sent m (Register a)]) = None ∨
   reply E (trace s ++ [Sent m (Register a)])
     = Some AddressAlreadyRegistered) →
  try_except_pass AddressAlreadyRegistered (register E ;; mret ()) s =
    (Ret (), mkState (self s)
               (clock s + Z.of_N (lag E (trace s ++ [Sent m (Register a)])))
               (trace s ++ [Sent m (Register a)]) (cfg_file s)).
Proof.
  intros Hm Ha Hr. unfold try_except_pass, register, mbind, M_bind.
  rewrite (init_messenger_Some E s m) by done.
  unfold cfg_get. rewrite Ha, (send_Some E s m) by done.
  unfold request. by destruct Hr as [-> | ->].
Qed.

Lemma registration_known_answers (p : Event → bool) :
  (∀ ev, p ev = true → is_register ev = false) →
  registration_known E → answers E p.
Proof.
  intros Hp [_ H]. apply (answers_mono _ (λ ev, negb (is_register ev)));
    [|done].
  intros ev Hev. by rewrite (Hp ev Hev).
Qed.

(** A run of [farm] that nothing stops: the messenger is created if it
    is not there, its retry limit is raised, the address is registered
    (or is so already), the shards are built and the server is polled
    until the budget of turns is used up. *)
Lemma farm_run fuel s a :
  ready s → cfg (self s) !! "payout_address"%string = Some a →
  SHARD_SIZE E ≠ 0 → in_float_range (max_size (self s)) (SHARD_SIZE E) →
  registration_known E →
  ∃ m evs,
    (messenger (self s) = Some m ∧ evs = [] ∨
     messenger (self s) = None ∧ evs = [New m] ∧
     Messaging.retry_limit m = retry_limit (self s)) ∧
    let m' := Messaging.set_retry_limit NEVER_GIVES_UP m in
    let r := farm E fuel s in
    r.1 = Running ∧ self r.2 = with_messenger (Some m') (self s) ∧
    trace r.2 =
      trace s ++ evs ++ [Sent m' (Register a)] ++
      build_events E (self s) m' false false
        (DEFAULT_SET_HEIGHT_INTERVAL E) (DEFAULT_NUMCORES E) ++
      turns m' (DEFAULT_DELAY E) fuel.
Proof.
  intros Hr Ha HS Hf Hk.
  assert (answers E is_poll) as Hping.
  { apply registration_known_answers; [|done]. by intros [|? []| | |]. }
  assert (answers E is_height) as Hheight.
  { apply registration_known_answers; [|done]. by intros [|? []| | |]. }
  assert (answers E is_built) as Hbuilt.
  { apply registration_known_answers; [|done]. by intros [|? []| | |]. }
  destruct (init_messenger_ready E s Hr) as (m & evs & Hi & Hev).
  exists m, evs. split; [by intuition|]. intros m'. cbv zeta.
  destruct (farm E fuel s) as [rf sf] eqn:Hfarm. revert Hfarm.
  unfold farm, mbind at 1 2 3, M_bind at 1 2 3. rewrite Hi.
  unfold set_messenger_retry_limit at 1. cbn [self messenger with_messenger].
  fold m'.
  match goal with |- context [try_except_pass _ _ ?s2] =>
    rewrite (try_register_run s2 m' a); [|done|done|apply Hk] end.
  unfold mbind at 1, M_bind at 1.
  match goal with |- context [build E ?c ?r ?i ?n ?s3] =>
    generalize (build_run c r i n s3 m' a eq_refl Ha HS Hf Hheight Hbuilt);
    destruct (build E c r i n s3) as [r4 s4] end.
  simpl. intros (-> & Hs4 & Ht4).
  unfold mbind at 1, M_bind at 1. rewrite poll_None_eq.
  assert (messenger (self s4) = Some m') as Hm4 by (by rewrite Hs4).
  generalize (poll_loop_None_trace E fuel (DEFAULT_DELAY E) s4 m' Hm4
                default_delay_sleepable Hping).
  destruct (poll_loop E fuel None (DEFAULT_DELAY E) s4) as [r5 s5].
  simpl. intros (-> & Hs5 & Ht5) [= <- <-]. simpl.
  split_and!; [done|by rewrite Hs5, Hs4; destruct (self s)|].
  rewrite Ht5, Ht4. by rewrite <- !app_assoc.
Qed.

End Farm.

Section Counting.
Context (E : Env).

Lemma count_zero p tr : Forall (λ ev, p ev = false) tr → count p tr = O.
Proof. induction 1 as [|ev tr Hev _ IH]; simpl; [done|]. by rewrite Hev, IH. Qed.

Lemma count_heights p (m : Messaging.t) (l : list Z) :
  (∀ h, p (Sent m (Height h)) = false) →
  count p ((λ h, Sent m (Height h)) <$> l) = O.
Proof.
  intros Hp. apply count_zero, Forall_fmap, Forall_forall. intros h _.
  apply Hp.
Qed.

Lemma count_turns p m d n :
  p (Sent m Ping) = false → p (Slept (Z.of_N d)) = false →
  count p (turns m d n) = O.
Proof.
  intros H1 H2. induction n as [|n IH]; [done|]. rewrite turns_S. simpl.
  by rewrite H1, H2, IH.
Qed.

Lemma count_news evs (m : Messaging.t) p :
  p (New m) = false → evs = [] ∨ evs = [New m] → count p evs = O.
Proof. intros Hp [-> | ->]; simpl; [done|]. by rewrite Hp. Qed.

Lemma register_refused s m a e :
  messenger (self s) = Some m →
  cfg (self s) !! "payout_address"%string = Some a →
  reply E (trace s ++ [Sent m (Register a)]) = Some e →
  register E s =
    (Raise e, mkState (self s)
                (clock s + Z.of_N (lag E (trace s ++ [Sent m (Register a)])))
                (trace s ++ [Sent m (Register a)]) (cfg_file s)).
Proof.
  intros Hm Ha Hr. unfold register, mbind, M_bind.
  rewrite (init_messenger_Some E s m) by done.
  unfold cfg_get. rewrite Ha, (send_Some E s m) by done.
  unfold request. by rewrite Hr.
Qed.

End Counting.

(** C3: when the server says that the address is registered already, a
    direct [register] raises [AddressAlreadyRegistered] to its caller
    after a single request; [farm] makes the same single request, goes
    on to build and then keeps polling.  (The division of the callback
    is taken to raise nothing: the shard size is not zero and the
    capacity is not too many shards for a float.) *)
Theorem already_registered_absorbed (E : Env) (fuel : nat) (s : State)
    (a : string) :
  already_registered E → ready s →
  cfg (self s) !! "payout_address"%string = Some a →
  SHARD_SIZE E ≠ 0 → in_float_range (max_size (self s)) (SHARD_SIZE E) →
  (let r := register E s in
   r.1 = Raise AddressAlreadyRegistered ∧
   count is_register (trace r.2) = S (count is_register (trace s))) ∧
  (let r := farm E fuel s in
   r.1 = Running ∧
   count is_register (trace r.2) = S (count is_register (trace s)) ∧
   count is_built (trace r.2) = S (count is_built (trace s)) ∧
   count is_ping (trace r.2) = (count is_ping (trace s) + fuel)%nat).
Proof.
  intros [Hreg Hans] Hr Ha HS Hf. split.
  - destruct (init_messenger_ready E s Hr) as (m & evs & Hi & Hev).
    cbv zeta. rewrite (register_after_init E _ _ Hi).
    rewrite (register_refused E _ m a AddressAlreadyRegistered);
      [|done|done|apply Hreg].
    split; [done|]. cbn [snd trace]. rewrite !count_app.
    rewrite (count_news evs m) by (done || intuition). simpl. lia.
  - destruct (farm_run E fuel s a Hr Ha HS Hf)
      as (m & evs & Hev & H1 & _ & H3).
    { split; [|done]. intros tr m0 a0. right. apply Hreg. }
    cbv zeta in *. split; [done|]. rewrite H3. unfold build_events.
    rewrite !count_app. cbn [count]. rewrite ?count_app.
    rewrite !count_heights, !count_turns, count_pings_turns by done.
    rewrite !(count_news evs m) by (done || intuition). simpl. lia.
Qed.

Lemma already_registered_absorbed_witness :
  (register registered_env sample_state).1 = Raise AddressAlreadyRegistered ∧
  (farm registered_env 4 sample_state).1 = Running ∧
  count is_register (trace (farm registered_env 4 sample_state).2) = 1%nat.
Proof.
  destruct (already_registered_absorbed registered_env 4 sample_state
              "1payout") as [[H1 _] (H2 & H3 & _)].
  - split.
    + intros tr m a. unfold registered_env, reply.
      by rewrite last_snoc.
    + intros tr [m| m []| | |] Hev; try done;
        unfold registered_env, reply; by rewrite last_snoc.
  - right. vm_compute. eauto.
  - reflexivity.
  - vm_compute. discriminate.
  - vm_compute. discriminate.
  - split_and!; [exact H1|exact H2|exact H3].
Defined.

(** ** The order of the phases of [farm] *)

Section Phases.
Context (E : Env).

Lemma bind_assoc {A B C} (m : M A) (f : A → M B) (g : B → M C) s :
  (m ≫= λ a, f a ≫= g) s = ((m ≫= f) ≫= g) s.
Proof. unfold mbind, M_bind. by destruct (m s) as [[]]. Qed.

Lemma then_refl (R1 R2 : State → State → Prop) s :
  R1 s s → R2 s s → then_ R1 R2 s s.
Proof. intros H1 H2. by exists s. Qed.

(** A program, then another: the first relation holds up to the state
    in between, the second from there on. *)
Lemma bind_then {A B} (m : M A) (f : A → M B)
    (R1 R2 : State → State → Prop) (I' : State → Prop) s :
  R1 s (m s).2 →
  (∀ a, (m s).1 = Ret a → I' (m s).2) →
  (∀ a s1, I' s1 → R2 s1 (f a s1).2) →
  (∀ s1, R2 s1 s1) →
  then_ R1 R2 s ((m ≫= f) s).2.
Proof.
  intros H1 HI Hf Hrefl. exists (m s).2. split; [done|].
  unfold mbind, M_bind. destruct (m s) as [[a|e|] s1]; simpl in *;
    [|apply Hrefl..].
  apply Hf. by apply (HI a).
Qed.

(** An invariant that says that the messenger exists. *)
Lemma closed_messenger_limit L P : closed E (messenger_limit L) P.
Proof.
  split.
  - intros s s' ev (m & Hm & HL) _ Hs _. exists m. by rewrite Hs.
  - intros s w (m & Hm & HL) Hn. congruence.
  - intros s d (m & Hm & HL). by exists m.
Qed.

Lemma allows_phase L (p : Event → bool) call :
  (∀ m, p (Sent m call) = true) →
  allows (messenger_limit L) (phase p L) call.
Proof.
  intros Hp s m (m0 & Hm0 & HL) Hm. split; [done|]. simpl. congruence.
Qed.

Lemma closed_configured_limit L :
  closed E (configured_limit L) (sent_under L).
Proof.
  split.
  - intros s s' ev HI _ Hs _. unfold configured_limit. by rewrite Hs.
  - intros s w [HL Hm] Hn. split; [|done]. split; [done|].
    simpl. by intros m [= <-].
  - intros s d HI. done.
Qed.

Lemma allows_configured_limit L call :
  allows (configured_limit L) (sent_under L) call.
Proof. intros s m [_ Hm] Hs. simpl. by apply Hm. Qed.

(** The first steps of [farm]: the messenger is made sure of and its
    retry limit is raised. *)
Lemma farm_prologue s :
  let r := (_init_messenger E ;;
            set_messenger_retry_limit NEVER_GIVES_UP) s in
  steps (λ ev, is_new ev = true) s r.2 ∧
  ∀ u, r.1 = Ret u → messenger_limit NEVER_GIVES_UP r.2.
Proof.
  cbv zeta. split.
  - apply (emits_bind (λ _, True)); [| |done].
    + by apply emits_init_messenger, closed_True.
    + intros _. by apply emits_set_messenger_retry_limit.
  - intros u. unfold mbind, M_bind.
    destruct (_init_messenger E s) as [[[]|e|] s1]; [|done..].
    unfold set_messenger_retry_limit.
    destruct (messenger (self s1)) as [m|]; [|done]. intros _.
    by eexists.
Qed.

(** The registration of [farm] asks the server once at most. *)
Lemma try_register_once s m :
  messenger (self s) = Some m →
  let r := try_except_pass AddressAlreadyRegistered
             (register E ;; mret ()) s in
  (length (trace r.2) ≤ S (length (trace s)))%nat.
Proof.
  intros Hm. cbv zeta. unfold try_except_pass, register, mbind, M_bind.
  rewrite (init_messenger_Some E s m) by done. unfold cfg_get.
  destruct (cfg (self s) !! _); [|simpl; lia].
  rewrite (send_Some E s m) by done. unfold request.
  destruct (reply E _); [case_decide|]; simpl; rewrite length_app; simpl; lia.
Qed.

Lemma farm_phases fuel s :
  then_ (steps (λ ev, is_new ev = true))
    (then_ (registers_once NEVER_GIVES_UP)
       (then_ (steps (phase is_build NEVER_GIVES_UP))
              (steps (phase is_poll NEVER_GIVES_UP))))
    s (farm E fuel s).2.
Proof.
  set (L := NEVER_GIVES_UP).
  pose proof (closed_messenger_limit L) as Hc.
  unfold farm. rewrite bind_assoc.
  destruct (farm_prologue s) as [H0 HI].
  apply (bind_then _ _ _ _ (messenger_limit L)); [done|done| |].
  - clear s H0 HI. intros _ s HI.
    apply (bind_then _ _ _ _ (messenger_limit L)).
    + split.
      * apply (emits_try_except_pass (messenger_limit L)); [|done].
        apply emits_bind; [|intros; apply emits_ret].
        apply (emits_register E _ _ (Hc _)). intros a.
        by apply allows_phase.
      * destruct HI as (m & Hm & _). by apply (try_register_once s m).
    + intros _ _.
      apply (emits_try_except_pass (messenger_limit L)
               (phase is_register L)); [|done].
      apply emits_bind; [|intros; apply emits_ret].
      apply (emits_register E _ _ (Hc _)). intros a. by apply allows_phase.
    + clear s HI. intros _ s HI.
      apply (bind_then _ _ _ _ (messenger_limit L)).
      * apply (emits_build E _ _ (Hc _)); [|done|done].
        intros h. by apply allows_phase.
      * intros _ _. apply (emits_build E (messenger_limit L)
                             (phase is_build L) (Hc _)); [|done|done].
        intros h. by apply allows_phase.
      * clear s HI. intros _ s HI.
        apply (emits_bind (messenger_limit L)); [| |done].
        -- apply (emits_poll E _ _ (Hc _)); [by apply allows_phase|done|done].
        -- intros; apply emits_ret.
      * intros s1. apply steps_refl.
    + intros s1. apply then_refl; apply steps_refl.
  - intros s1. apply then_refl; [split; [apply steps_refl|lia]|].
    apply then_refl; apply steps_refl.
Qed.

(** Whatever becomes of [farm], a messenger it leaves has the raised
    retry limit. *)
Lemma farm_limit fuel s m :
  messenger (self (farm E fuel s).2) = Some m →
  Messaging.retry_limit m = NEVER_GIVES_UP.
Proof.
  pose proof (closed_messenger_limit NEVER_GIVES_UP (λ _, True)) as Hc.
  assert (∀ call, allows (messenger_limit NEVER_GIVES_UP) (λ _, True) call)
    as Ha by done.
  unfold farm. rewrite bind_assoc.
  destruct (farm_prologue s) as [_ HI]. cbv zeta in HI.
  unfold mbind at 1, M_bind at 1.
  destruct ((_init_messenger E
             ≫= λ _, set_messenger_retry_limit NEVER_GIVES_UP) s)
    as [[u|e|] s1] eqn:Hp.
  - specialize (HI u eq_refl).
    match goal with |- context [?rest s1] =>
      assert (emits (messenger_limit NEVER_GIVES_UP) (λ _, True) rest)
        as Hrest end.
    { apply emits_bind.
      { apply emits_try_except_pass, emits_bind;
          [by apply emits_register|intros _; apply emits_ret]. }
      intros _. apply emits_bind; [by apply emits_build|intros _].
      apply emits_bind; [by apply emits_poll|intros _; apply emits_ret]. }
    destruct (Hrest s1 HI) as [(m0 & Hm0 & HL) _]. intros Hm. congruence.
  - revert Hp. unfold mbind, M_bind, _init_messenger, set_messenger_retry_limit.
    destruct (messenger (self s)) as [m0|] eqn:Hm0; cbn; [by rewrite Hm0|].
    destruct (cfg (self s) !! _); cbn; [done|]. intros [= _ <-]. cbn.
    by rewrite Hm0.
  - revert Hp. unfold mbind, M_bind, _init_messenger, set_messenger_retry_limit.
    destruct (messenger (self s)) as [m0|] eqn:Hm0; cbn; [by rewrite Hm0|].
    by destruct (cfg (self s) !! _).
Qed.

End Phases.

Section Standalone.
Context (E : Env).

Lemma emits_run I P fuel op :
  closed E I P → (∀ call, allows I P call) →
  (∀ d, P (Slept d)) → (∀ d, P (Saved d)) → (∀ c r n, P (Built c r n)) →
  standalone op → emits I P (run E fuel op).
Proof.
  intros Hc Ha Hs Hv Hb Hop.
  destruct op; simpl in *; [| | | | |done];
    (apply emits_bind; [|intros; apply emits_ret]).
  - by apply (emits_register E).
  - by apply (emits_config E).
  - by apply (emits_ping E).
  - by apply (emits_poll E).
  - by apply (emits_build E).
Qed.

End Standalone.

(** C4: [farm] sets the retry limit of the messenger to 38 nines, which
    raises it for every client configured with less, before it asks
    anything of the server, and then registers (once), builds and polls,
    in that order and all under that limit; when nothing fails it does
    all three, and a messenger it leaves has that limit.  The other
    operations run under the retry limit of the client. *)
Theorem farm_order (E : Env) (fuel : nat) (s : State) :
  let L := NEVER_GIVES_UP in
  L = 99999999999999999999999999999999999999 ∧
  (∀ m, messenger (self (farm E fuel s).2) = Some m →
     Messaging.retry_limit m = L ∧
     (retry_limit (self s) < 99999999999999999999999999999999999999 →
      retry_limit (self s) < Messaging.retry_limit m)) ∧
  (∃ pre reg bld pol,
     trace (farm E fuel s).2 = trace s ++ pre ++ reg ++ bld ++ pol ∧
     Forall (λ ev, is_new ev = true) pre ∧
     Forall (phase is_register L) reg ∧ (length reg ≤ 1)%nat ∧
     Forall (phase is_build L) bld ∧
     Forall (phase is_poll L) pol) ∧
  (∀ a, ready s → cfg (self s) !! "payout_address"%string = Some a →
     SHARD_SIZE E ≠ 0 → in_float_range (max_size (self s)) (SHARD_SIZE E) →
     registration_known E →
     ∃ m pre,
       Messaging.retry_limit m = L ∧ Forall (λ ev, is_new ev = true) pre ∧
       (farm E fuel s).1 = Running ∧
       trace (farm E fuel s).2 =
         trace s ++ pre ++ [Sent m (Register a)] ++
         build_events E (self s) m false false
           (DEFAULT_SET_HEIGHT_INTERVAL E) (DEFAULT_NUMCORES E) ++
         turns m (DEFAULT_DELAY E) fuel) ∧
  (∀ op, standalone op → configured_limit (retry_limit (self s)) s →
     steps (sent_under (retry_limit (self s))) s (run E fuel op s).2) ∧
  (∀ op url debug max_size store_path config_path limit delay cfg,
     standalone op →
     self s = Client_init url debug max_size store_path config_path
                limit delay cfg →
     steps (sent_under (Z.of_N limit)) s (run E fuel op s).2).
Proof.
  assert (∀ L op, standalone op → configured_limit L s →
            steps (sent_under L) s (run E fuel op s).2) as Halone.
  { intros L op Hop HI.
    apply (emits_run E (configured_limit L) (sent_under L)); try done.
    - apply closed_configured_limit.
    - intros call. apply allows_configured_limit. }
  intros L. split_and!.
  - done.
  - intros m Hm. rewrite (farm_limit E fuel s m Hm). split; [done|].
    by unfold NEVER_GIVES_UP.
  - destruct (farm_phases E fuel s)
      as (s1 & [_ (pre & Hpre & Fpre)] & s2 & [[_ (reg & Hreg & Freg)] Hlen]
          & s3 & [_ (bld & Hbld & Fbld)] & [_ (pol & Hpol & Fpol)]).
    exists pre, reg, bld, pol. split_and!; [|done|done| |done|done].
    + rewrite Hpol, Hbld, Hreg, Hpre. by rewrite <- !app_assoc.
    + rewrite Hreg, length_app in Hlen. lia.
  - intros a Hr Ha HS Hf Hk.
    destruct (farm_run E fuel s a Hr Ha HS Hf Hk)
      as (m & evs & Hev & H1 & _ & H3).
    exists (Messaging.set_retry_limit NEVER_GIVES_UP m), evs.
    split_and!; [done| |done|done].
    destruct Hev as [[_ ->]|(_ & -> & _)]; by repeat constructor.
  - intros op Hop HI. by apply Halone.
  - intros op ???????? Hop Hs. apply Halone; [done|].
    unfold configured_limit. rewrite Hs. simpl. split; [done|]. by intros m.
Qed.

Lemma farm_order_witness :
  (farm sample_env 2 sample_state).1 = Running ∧
  steps (sent_under 5) sample_state (run sample_env 2 OpPing sample_state).2.
Proof.
  destruct (farm_order sample_env 2 sample_state)
    as (_ & _ & _ & H2 & H3 & _). split.
  - destruct (H2 "1payout"%string) as (m & pre & _ & _ & H & _).
    + right. vm_compute. eauto.
    + reflexivity.
    + vm_compute. discriminate.
    + vm_compute. discriminate.
    + split; [by left|]. by intros tr ev _.
    + exact H.
  - apply (H3 OpPing); [exact I|]. split; [reflexivity|]. intros m [=].
Defined.

(** ** One messenger per client *)

Section Once.
Context (E : Env).

Lemma emits_run_any I P fuel op :
  closed E I P → closed_set NEVER_GIVES_UP I → (∀ call, allows I P call) →
  (∀ d, P (Slept d)) → (∀ d, P (Saved d)) → (∀ c r n, P (Built c r n)) →
  emits I P (run E fuel op).
Proof.
  intros Hc Hset Ha Hs Hv Hb.
  destruct op; try by apply emits_run.
  by apply emits_farm.
Qed.

Lemma closed_accounted n K : closed E (accounted n K) (λ _, True).
Proof.
  unfold accounted, constructions. split.
  - intros s s' ev [HK Hn] Hev Hs Ht. rewrite Ht, Hs, count_app. simpl.
    rewrite Hev. lia.
  - intros s w [HK Hn] Hm. rewrite Hm in HK. simpl.
    rewrite count_app. simpl. split; [lia|done].
  - intros s d HI. by destruct (self s).
Qed.

Lemma closed_set_accounted v n K : closed_set v (accounted n K).
Proof.
  intros s m [HK Hn] Hm. unfold accounted, constructions in *.
  rewrite Hm in HK. by destruct (self s).
Qed.

Lemma run_all_accounted fuel ops s n K :
  accounted n K s → accounted n K (run_all E fuel ops s).
Proof.
  revert s. induction ops as [|op ops IH]; intros s HI; [done|].
  simpl. apply IH.
  by apply (emits_run_any (accounted n K) (λ _, True) fuel op
              (closed_accounted n K) (closed_set_accounted _ n K)).
Qed.

(** The invariant "the messenger is [m]". *)
Lemma closed_same_messenger m :
  closed E (λ s, messenger (self s) = Some m) (λ _, True).
Proof.
  split.
  - intros s s' ev Hm _ Hs _. by rewrite Hs.
  - intros s w Hm Hn. congruence.
  - intros s d Hm. by destruct (self s).
Qed.

Lemma closed_same_but_limit m : closed E (same_but_limit m) (λ _, True).
Proof.
  split.
  - intros s s' ev [v Hm] _ Hs _. exists v. by rewrite Hs.
  - intros s w [v Hm] Hn. congruence.
  - intros s d [v Hm]. exists v. by destruct (self s).
Qed.

Lemma closed_set_same_but_limit v m : closed_set v (same_but_limit m).
Proof.
  intros s m' [v' Hm] Hm'. exists v. rewrite Hm in Hm'.
  injection Hm' as <-. by destruct (self s).
Qed.

End Once.

(** A messenger first made with retry limit 5: the registration of
    [farm] is sent by the same messenger under the limit of 38 nines. *)
Lemma farm_overrides_retry_limit :
  messenger (self sample_ready)
    = Some (Messaging.Build "http://server" "xprv" 5 30 false) ∧
  trace (farm sample_env 1 sample_ready).2 !! 1%nat
    = Some (Sent (Messaging.Build "http://server" "xprv" NEVER_GIVES_UP 30 false)
                 (Register "1payout")) ∧
  messenger (self (farm sample_env 1 sample_ready).2)
    = Some (Messaging.Build "http://server" "xprv" NEVER_GIVES_UP 30 false) ∧
  NEVER_GIVES_UP ≠ 5.
Proof. vm_compute. done. Qed.

(** C9, as amended: [_init_messenger] is idempotent: once the messenger
    exists a further call changes nothing, whatever the retry settings
    of the client are by then.  So any sequence of public operations
    constructs the messenger once at most, and not at all if it exists;
    [register], [config], [ping], [poll] and [build] leave the messenger
    as they found it, and [farm] changes nothing of it but the retry
    limit. *)
Theorem init_messenger_once (E : Env) (fuel : nat) (s : State) :
  (∀ m, messenger (self s) = Some m → _init_messenger E s = (Ret (), s)) ∧
  (_init_messenger E (_init_messenger E s).2).2 = (_init_messenger E s).2 ∧
  (∀ ops,
     let s' := run_all E fuel ops s in
     (count is_new (trace s) ≤ count is_new (trace s')
        ≤ count is_new (trace s) + 1)%nat ∧
     (is_Some (messenger (self s)) →
      count is_new (trace s') = count is_new (trace s))) ∧
  (∀ m op, messenger (self s) = Some m →
     (standalone op → messenger (self (run E fuel op s).2) = Some m) ∧
     ∃ v, messenger (self (run E fuel op s).2)
            = Some (Messaging.set_retry_limit v m)).
Proof.
  split_and!.
  - intros m. apply init_messenger_Some.
  - unfold _init_messenger.
    destruct (messenger (self s)) eqn:Hm; simpl; [by rewrite Hm|].
    destruct (cfg (self s) !! "wallet"%string) eqn:Hw; simpl; [done|].
    by rewrite Hm, Hw.
  - intros ops s'.
    destruct (run_all_accounted E fuel ops s (count is_new (trace s))
                (constructions s)) as [HK Hn]; [by split|].
    fold s' in HK, Hn. unfold constructions in HK. split.
    + destruct (messenger (self s)), (messenger (self s')); lia.
    + intros [m Hm]. rewrite Hm in HK.
      destruct (messenger (self s')); lia.
  - intros m op Hm. split.
    + intros Hop.
      by apply (emits_run E (λ s, messenger (self s) = Some m) (λ _, True)
                  fuel op (closed_same_messenger E m)).
    + apply (emits_run_any E (same_but_limit m) (λ _, True) fuel op
               (closed_same_but_limit E m)
               (closed_set_same_but_limit _ m)); try done.
      exists (Messaging.retry_limit m). rewrite Hm. by destruct m.
Qed.

Lemma init_messenger_once_witness :
  _init_messenger sample_env sample_ready = (Ret (), sample_ready) ∧
  messenger (self (run sample_env 3 OpPing sample_ready).2)
    = Some (Messaging.Build "http://server" "xprv" 5 30 false).
Proof.
  destruct (init_messenger_once sample_env 3 sample_ready)
    as (H1 & _ & _ & H4). split.
  - apply (H1 (Messaging.Build "http://server" "xprv" 5 30 false)).
    reflexivity.
  - apply (H4 (Messaging.Build "http://server" "xprv" 5 30 false) OpPing).
    + reflexivity.
    + exact I.
Defined.

(** * Further properties *)

(** ** What [config] stores *)

Section ConfigStores.
Context (E : Env).

Lemma config_after_checks set_wallet set_payout_address s :
  acceptable E set_wallet set_payout_address →
  config E set_wallet set_payout_address s =
    (_init_messenger E ;;
     cfg_set_if "payout_address" set_payout_address ;;
     cfg_set_if "wallet" set_wallet ;;
     (if truthy_str set_wallet || truthy_str set_payout_address
      then config_save E else mret ()) ;;
     cfg_get "payout_address" ;;
     self_cfg) s.
Proof.
  intros [Ha Hw]. unfold config, cfg_set_if, mbind, M_bind.
  destruct set_payout_address as [a|]; [rewrite (Ha a eq_refl)|];
    (destruct set_wallet as [w|]; [rewrite (Hw w eq_refl)|]); simpl;
    destruct (_init_messenger E s) as [[[]|?|] s1]; try done;
    unfold truthy_str; simpl;
    repeat (destruct (String.eqb _ EmptyString); simpl); try done.
Qed.

Lemma cfg_set_if_eq key arg s :
  cfg_set_if key arg s =
    (Ret (), with_self (with_cfg (stored key arg (cfg (self s))) (self s)) s).
Proof.
  unfold cfg_set_if, stored, cfg_set.
  destruct arg as [v|]; [destruct (truthy_str _)|]; try done;
    by destruct s as [[] ? ? ?].
Qed.

Lemma truthy_stored key arg d :
  truthy_str arg = false → stored key arg d = d.
Proof. unfold stored. destruct arg; [|done]. by intros ->. Qed.

End ConfigStores.

(** X1: [config] with arguments that pass its checks stores every
    argument that is given and not empty, returns the dictionary it
    leaves, and saves that dictionary once if it stored anything, also
    when nothing changed by it; with nothing to store it saves nothing. *)
Theorem config_stores (E : Env) (s : State)
    (set_wallet set_payout_address : option string) :
  acceptable E set_wallet set_payout_address →
  ready s → answers E is_saved →
  let d := configured set_wallet set_payout_address (cfg (self s)) in
  is_Some (d !! "payout_address"%string) →
  let s1 := (_init_messenger E s).2 in
  let r := config E set_wallet set_payout_address s in
  r.1 = Ret d ∧ cfg (self r.2) = d ∧
  messenger (self r.2) = messenger (self s1) ∧
  if truthy_str set_wallet || truthy_str set_payout_address
  then cfg_file r.2 = d ∧ trace r.2 = trace s1 ++ [Saved d]
  else cfg_file r.2 = cfg_file s ∧ trace r.2 = trace s1.
Proof.
  intros Hacc Hr Hsave d [v Hv] s1 r. unfold r, s1. clear r s1.
  destruct (init_messenger_ready E s Hr) as (m & evs & Hi & _).
  destruct (config E set_wallet set_payout_address s) as [r s2] eqn:Hc.
  revert Hc. rewrite config_after_checks by done.
  unfold mbind at 1, M_bind at 1. rewrite Hi.
  unfold mbind at 1, M_bind at 1. rewrite cfg_set_if_eq.
  unfold mbind at 1, M_bind at 1. rewrite cfg_set_if_eq.
  cbn [self cfg with_self with_cfg with_messenger snd]. fold d.
  unfold configured in d. fold d.
  destruct (truthy_str set_wallet || truthy_str set_payout_address) eqn:Ht.
  - unfold mbind at 1, M_bind at 1, config_save.
    rewrite (request_answered E is_saved) by done.
    cbn [self cfg with_cfg_file]. unfold mbind, M_bind, cfg_get. cbn.
    rewrite Hv. by intros [= <- <-].
  - unfold mbind, M_bind, cfg_get. cbn. rewrite Hv. intros [= <- <-].
    cbn. by rewrite app_nil_r || done.
Qed.

Lemma config_stores_witness :
  (config sample_env (Some "xprv"%string) (Some "1payout"%string)
     sample_state).1 = Ret sample_cfg ∧
  cfg_file (config sample_env None (Some "1payout"%string)
              (mkState sample_client 0 [] ∅)).2 = sample_cfg.
Proof.
  split.
  - destruct (config_stores sample_env sample_state (Some "xprv"%string)
                (Some "1payout"%string)) as [H _].
    + split; intros ? [= <-]; reflexivity.
    + right. vm_compute. eauto.
    + intros tr ev _. reflexivity.
    + vm_compute. eauto.
    + etransitivity; [exact H|]. by vm_compute.
  - destruct (config_stores sample_env (mkState sample_client 0 [] ∅) None
                (Some "1payout"%string)) as (_ & _ & _ & H).
    + split; intros ? [= <-]; reflexivity.
    + right. vm_compute. eauto.
    + intros tr ev _. reflexivity.
    + vm_compute. eauto.
    + simpl in H. destruct H as [H _]. etransitivity; [exact H|].
      by vm_compute.
Defined.

(** X2: on a client that has no messenger yet, [config] makes the
    messenger before it stores its arguments: the messenger gets the key
    of the wallet that was configured before the call, while the
    dictionary gets the new wallet, whether or not the save succeeds. *)
Theorem config_keeps_first_key (E : Env) (s : State)
    (set_wallet set_payout_address : option string) (w0 : string) :
  messenger (self s) = None →
  cfg (self s) !! "wallet"%string = Some w0 →
  acceptable E set_wallet set_payout_address →
  let r := config E set_wallet set_payout_address s in
  messenger (self r.2) =
    Some (Messaging.Build (url (self s)) (get_key E w0) (retry_limit (self s))
            (retry_delay (self s)) (debug (self s))) ∧
  cfg (self r.2) = configured set_wallet set_payout_address (cfg (self s)) ∧
  (∀ w, set_wallet = Some w → w ≠ EmptyString →
        cfg (self r.2) !! "wallet"%string = Some w).
Proof.
  intros Hm Hw Hacc r.
  assert (messenger (self r.2) =
            Some (Messaging.Build (url (self s)) (get_key E w0)
                    (retry_limit (self s)) (retry_delay (self s))
                    (debug (self s))) ∧
          cfg (self r.2)
            = configured set_wallet set_payout_address (cfg (self s)))
    as [H1 H2].
  { unfold r. clear r.
    destruct (config E set_wallet set_payout_address s) as [r s2] eqn:Hc.
    revert Hc. rewrite config_after_checks by done.
    unfold mbind at 1, M_bind at 1, _init_messenger. rewrite Hm, Hw.
    unfold mbind at 1, M_bind at 1. rewrite cfg_set_if_eq.
    unfold mbind at 1, M_bind at 1. rewrite cfg_set_if_eq.
    cbn [self cfg with_self with_cfg with_messenger snd].
    fold (configured set_wallet set_payout_address (cfg (self s))).
    unfold mbind, M_bind, config_save, request, cfg_get.
    destruct (truthy_str set_wallet || truthy_str set_payout_address);
      cbn; repeat (destruct (reply E _) || destruct (_ !! _)); cbn;
      by intros [= <- <-]. }
  split_and!; [done..|].
  intros w -> Hne. rewrite H2. unfold configured, stored at 1, truthy_str.
  destruct (String.eqb_spec w EmptyString) as [|_]; [done|]. simpl.
  apply lookup_insert_eq.
Qed.

Lemma config_keeps_first_key_witness :
  messenger (self (config sample_env (Some "xprv"%string) None
                     stale_state).2)
    = Some (Messaging.Build "http://server" "old" 5 30 false) ∧
  cfg (self (config sample_env (Some "xprv"%string) None stale_state).2)
    !! "wallet"%string = Some "xprv"%string.
Proof.
  destruct (config_keeps_first_key sample_env stale_state
              (Some "xprv"%string) None "old") as (H1 & _ & H3).
  - reflexivity.
  - reflexivity.
  - split; [intros ? [=]|intros ? [= <-]; reflexivity].
  - split; [exact H1|]. apply H3; [reflexivity|discriminate].
Defined.

(** ** Registering *)

(** X3: [register] sends one request, with the payout address of the
    configuration, and gives back what the messenger made of it: [True]
    if the request went through, the messenger's exception if not.  It
    changes nothing of the client but the messenger it may have to
    make. *)
Theorem register_outcome (E : Env) (s : State) (a : string) :
  ready s → cfg (self s) !! "payout_address"%string = Some a →
  let s1 := (_init_messenger E s).2 in
  let r := register E s in
  ∃ m, messenger (self s1) = Some m ∧
    trace r.2 = trace s1 ++ [Sent m (Register a)] ∧
    self r.2 = self s1 ∧ cfg_file r.2 = cfg_file s ∧
    r.1 = match reply E (trace s1 ++ [Sent m (Register a)]) with
          | None => Ret true
          | Some e => Raise e
          end.
Proof.
  intros Hr Ha s1 r. unfold r, s1. clear r s1.
  destruct (init_messenger_ready E s Hr) as (m & evs & Hi & _).
  rewrite (register_after_init E _ _ Hi), Hi. exists m. split; [done|].
  unfold register, mbind, M_bind.
  rewrite (init_messenger_Some E _ m) by done.
  unfold cfg_get. cbn [self cfg with_messenger]. rewrite Ha.
  rewrite (send_Some E _ m) by done. unfold request.
  cbn [trace snd]. by destruct (reply E _).
Qed.

Lemma register_outcome_witness :
  (register sample_env sample_state).1 = Ret true ∧
  (register registered_env sample_state).1 = Raise AddressAlreadyRegistered.
Proof.
  split.
  - destruct (register_outcome sample_env sample_state "1payout")
      as (m & _ & _ & _ & _ & H).
    + right. vm_compute. eauto.
    + reflexivity.
    + exact H.
  - destruct (register_outcome registered_env sample_state "1payout")
      as (m & Hm & _ & _ & _ & H).
    + right. vm_compute. eauto.
    + reflexivity.
    + injection Hm as <-. exact H.
Defined.

(** X4: without a messenger and without a wallet in the configuration
    no operation gets anywhere: each raises [KeyError] for the wallet
    and leaves the state as it was ([config] once its arguments have
    passed the checks, [poll] once it has its stop time). *)
Theorem no_wallet_no_operation (E : Env) (fuel : nat) (s : State) (op : Op) :
  messenger (self s) = None →
  cfg (self s) !! "wallet"%string = None →
  match op with
  | OpConfig w a => acceptable E w a
  | OpPoll _ _ limit => stop_time_fits (clock s) limit
  | _ => True
  end →
  run E (S fuel) op s = (Raise (KeyError "wallet"), s).
Proof.
  intros Hm Hw Hop.
  assert (_init_messenger E s = (Raise (KeyError "wallet"), s)) as Hi.
  { unfold _init_messenger. by rewrite Hm, Hw. }
  destruct op as [|w a| |ra d l| |]; simpl.
  - unfold register, mbind, M_bind. by rewrite Hi.
  - unfold mbind at 1, M_bind at 1. rewrite config_after_checks by done.
    unfold mbind, M_bind. by rewrite Hi.
  - unfold ping, mbind, M_bind. by rewrite Hi.
  - assert (∀ stop, (if ra
                     then match register E s with
                          | (Ret _, s1) => poll_loop E (S fuel) stop d s1
                          | (Raise e, s1) => (Raise e, s1)
                          | (Running, s1) => (Running, s1)
                          end
                     else poll_loop E (S fuel) stop d s)
                    = (Raise (KeyError "wallet"), s)) as Hloop.
    { intros stop. destruct ra.
      - unfold register, mbind, M_bind. by rewrite Hi.
      - cbn [poll_loop]. unfold ping, mbind, M_bind. by rewrite Hi. }
    unfold mbind at 1, M_bind at 1.
    destruct l as [l|]; [destruct (decide (l = 0)) as [->|Hl]|].
    + change (poll E (S fuel) ra d (Some 0) s)
        with (poll E (S fuel) ra d None s).
      by rewrite poll_None_eq, Hloop.
    + destruct Hop as [|Hop]; [done|]. by rewrite poll_Some_eq, Hloop.
    + by rewrite poll_None_eq, Hloop.
  - unfold build, mbind, M_bind. by rewrite Hi.
  - unfold farm, mbind, M_bind. by rewrite Hi.
Qed.

Lemma no_wallet_no_operation_witness :
  run sample_env 1 (OpPoll true 2 (Some 60))
      (mkState (with_cfg ∅ sample_client) 0 [] ∅)
    = (Raise (KeyError "wallet"), mkState (with_cfg ∅ sample_client) 0 [] ∅).
Proof.
  apply (no_wallet_no_operation sample_env 0
           (mkState (with_cfg ∅ sample_client) 0 [] ∅)
           (OpPoll true 2 (Some 60))).
  - reflexivity.
  - reflexivity.
  - right. by vm_compute.
Defined.

(** X5: without a payout address in the configuration [register],
    [build] and [farm] raise [KeyError] for it once the messenger is
    there: the server is not asked and the builder is not called. *)
Theorem no_payout_address (E : Env) (fuel : nat) (s : State)
    (cleanup rebuild : bool) (interval cores : positive) :
  ready s → cfg (self s) !! "payout_address"%string = None →
  let s1 := (_init_messenger E s).2 in
  register E s = (Raise (KeyError "payout_address"), s1) ∧
  build E cleanup rebuild interval cores s
    = (Raise (KeyError "payout_address"), s1) ∧
  (farm E fuel s).1 = Raise (KeyError "payout_address") ∧
  trace (farm E fuel s).2 = trace s1.
Proof.
  intros Hr Ha s1. unfold s1. clear s1.
  destruct (init_messenger_ready E s Hr) as (m & evs & Hi & _).
  rewrite Hi. cbn [snd]. split_and!.
  - unfold register, mbind, M_bind, cfg_get. rewrite Hi. cbn. by rewrite Ha.
  - unfold build, mbind, M_bind, cfg_get. rewrite Hi. cbn. by rewrite Ha.
  - unfold farm, mbind at 1 2 3, M_bind at 1 2 3. rewrite Hi.
    unfold set_messenger_retry_limit, try_except_pass, register,
      mbind, M_bind, _init_messenger, cfg_get. cbn. by rewrite Ha.
  - unfold farm, mbind at 1 2 3, M_bind at 1 2 3. rewrite Hi.
    unfold set_messenger_retry_limit, try_except_pass, register,
      mbind, M_bind, _init_messenger, cfg_get. cbn. by rewrite Ha.
Qed.

Lemma no_payout_address_witness :
  (farm sample_env 1
     (mkState (with_cfg (delete "payout_address"%string sample_cfg)
                 sample_client) 0 [] ∅)).1
    = Raise (KeyError "payout_address").
Proof.
  destruct (no_payout_address sample_env 1
              (mkState (with_cfg (delete "payout_address"%string sample_cfg)
                          sample_client) 0 [] ∅) false false 1 1)
    as (_ & _ & H & _).
  - right. vm_compute. eauto.
  - vm_compute. reflexivity.
  - exact H.
Defined.

(** ** Polling: failures, time and bounds *)

Section PollMore.
Context (E : Env).

(** One turn of the loop, whatever the stop time. *)
Lemma poll_loop_S fuel stop_time delay s :
  poll_loop E (S fuel) stop_time delay s =
    match ping E s with
    | (Ret _, s1) =>
        if match stop_time with
           | Some t => t <=? clock s1
           | None => false
           end
        then (Ret true, s1)
        else match time_sleep E (Z.of_N delay) s1 with
             | (Ret _, s2) => poll_loop E fuel stop_time delay s2
             | (Raise e, s2) => (Raise e, s2)
             | (Running, s2) => (Running, s2)
             end
    | (Raise e, s1) => (Raise e, s1)
    | (Running, s1) => (Running, s1)
    end.
Proof.
  destruct stop_time; [apply poll_loop_Some_S|apply poll_loop_None_S].
Qed.

(** A stop time that [poll] cannot compute ends it before anything is
    done. *)
Lemma poll_unfit fuel register_address delay limit s :
  ¬ stop_time_fits (clock s) limit →
  poll E fuel register_address delay limit s = (Raise OverflowError, s).
Proof.
  destruct limit as [l|]; [|done]. intros Hfit.
  apply poll_overflow; intros H; apply Hfit; [by left|by right].
Qed.

(** With a stop time that it can compute, [poll] is the optional
    [register] followed by the loop. *)
Lemma poll_fit_eq fuel register_address delay limit s :
  stop_time_fits (clock s) limit →
  poll E fuel register_address delay limit s =
    let stop_time := if truthy_int limit
                     then Some (clock s + seconds (default 0 limit))
                     else None in
    if register_address
    then match register E s with
         | (Ret _, s1) => poll_loop E fuel stop_time delay s1
         | (Raise e, s1) => (Raise e, s1)
         | (Running, s1) => (Running, s1)
         end
    else poll_loop E fuel stop_time delay s.
Proof.
  destruct limit as [l|]; [|intros _; apply poll_None_eq].
  destruct (decide (l = 0)) as [->|Hl]; [intros _; apply poll_None_eq|].
  intros [|Hrep]; [done|]. rewrite poll_Some_eq by done.
  unfold truthy_int. by destruct (Z.eqb_spec l 0).
Qed.

(** With [register_address] false, [poll] is its loop. *)
Lemma poll_plain_eq fuel delay limit s :
  stop_time_fits (clock s) limit →
  poll E fuel false delay limit s =
    poll_loop E fuel
      (if truthy_int limit
       then Some (clock s + seconds (default 0 limit)) else None) delay s.
Proof. intros Hfit. by rewrite poll_fit_eq. Qed.

Lemma ping_cases s m :
  messenger (self s) = Some m →
  let s1 := mkState (self s)
              (clock s + Z.of_N (lag E (trace s ++ [Sent m Ping])))
              (trace s ++ [Sent m Ping]) (cfg_file s) in
  ping E s = match reply E (trace s ++ [Sent m Ping]) with
             | None => (Ret true, s1)
             | Some e => (Raise e, s1)
             end.
Proof.
  intros Hm. rewrite (ping_Some E s m) by done. unfold request.
  by destruct (reply E _).
Qed.

(** While the sleeps are taken, the loop raises only what a ping
    raised, and at once. *)
Lemma poll_loop_Raise fuel stop_time d s m e :
  messenger (self s) = Some m → sleepable d → answers E is_slept →
  let r := poll_loop E fuel stop_time d s in
  r.1 = Raise e →
  ∃ n, (n < fuel)%nat ∧
    trace r.2 = trace s ++ turns m d n ++ [Sent m Ping] ∧
    reply E (trace r.2) = Some e.
Proof.
  intros Hm Hd Hsl. revert s Hm.
  induction fuel as [|fuel IH]; intros s Hm; [done|].
  cbv zeta. rewrite poll_loop_S, (ping_cases s m) by done.
  destruct (reply E (trace s ++ [Sent m Ping])) as [e'|] eqn:Hrep.
  - simpl. intros [= ->]. exists O. split_and!; [lia|done|done].
  - match goal with |- context [if ?b then _ else _] => destruct b end;
      [done|].
    rewrite time_sleep_answered by done.
    intros Hr. match type of Hr with (poll_loop _ _ _ _ ?s2).1 = _ =>
      destruct (IH s2 Hm Hr) as (n & Hn & Ht & Hrp) end.
    exists (S n). split_and!; [lia| |done].
    rewrite Ht, turns_S. cbn [trace snd].
    by rewrite <- !app_assoc.
Qed.

(** Every sleep of the loop that is taken takes its [delay] seconds at
    least. *)
Lemma poll_loop_elapsed fuel stop_time d s m :
  messenger (self s) = Some m → sleepable d → answers E is_slept →
  let r := poll_loop E fuel stop_time d s in
  clock s + Z.of_nat (count is_slept (trace r.2)) * seconds (Z.of_N d)
    ≤ clock r.2 + Z.of_nat (count is_slept (trace s)) * seconds (Z.of_N d).
Proof.
  intros Hm Hd Hsl. revert s Hm.
  induction fuel as [|fuel IH]; intros s Hm; [simpl; lia|].
  cbv zeta. rewrite poll_loop_S, (ping_cases s m) by done.
  destruct (reply E (trace s ++ [Sent m Ping])) as [e'|] eqn:Hrep.
  - cbn [snd trace clock]. rewrite count_app. simpl. lia.
  - match goal with |- context [if ?b then _ else _] => destruct b end.
    + cbn [snd trace clock]. rewrite count_app. simpl. lia.
    + rewrite time_sleep_answered by done.
      match goal with |- context [poll_loop _ _ _ _ ?s2] =>
        specialize (IH s2 Hm); revert IH end.
      cbv zeta. cbn [snd trace clock]. rewrite !count_app.
      unfold seconds. simpl. lia.
Qed.

End PollMore.

(** X6: what [poll] raises.  A stop time that is no [datetime] makes it
    raise [OverflowError] before anything is done.  Otherwise, with a
    delay that [time.sleep] takes and sleeps that are taken, [poll]
    raises exactly when a ping does, right after that ping and without
    a further sleep, and what it raises is the exception of that ping,
    which it does not catch; a first ping that fails ends the poll. *)
Theorem poll_raises_at_failed_ping (E : Env) (fuel : nat) (delay : N)
    (limit : option Z) (s : State) :
  ready s →
  let s1 := (_init_messenger E s).2 in
  let r := poll E fuel false delay limit s in
  (¬ stop_time_fits (clock s) limit → r = (Raise OverflowError, s)) ∧
  (stop_time_fits (clock s) limit → sleepable delay → answers E is_slept →
   ∀ e, r.1 = Raise e →
     ∃ m n, (n < fuel)%nat ∧
       trace r.2 = trace s1 ++ turns m delay n ++ [Sent m Ping] ∧
       reply E (trace r.2) = Some e) ∧
  (stop_time_fits (clock s) limit →
   ∀ e m, messenger (self s1) = Some m →
     reply E (trace s1 ++ [Sent m Ping]) = Some e → (0 < fuel)%nat →
     r.1 = Raise e ∧ trace r.2 = trace s1 ++ [Sent m Ping]).
Proof.
  intros Hr s1 r. unfold r, s1. clear r s1.
  destruct (init_messenger_ready E s Hr) as (m & evs & Hi & _).
  rewrite Hi. cbn [snd]. split_and!.
  - apply poll_unfit.
  - intros Hfit Hd Hsl e. rewrite poll_plain_eq by done.
    destruct fuel as [|fuel]; [done|].
    rewrite (poll_loop_after_init E _ _ _ _ _ Hi). intros He.
    match type of He with (poll_loop _ _ ?st _ ?s1).1 = _ =>
      destruct (poll_loop_Raise E (S fuel) st delay s1 m e)
        as (n & Hn & Ht & Hrp); [done..|] end.
    by exists m, n.
  - intros Hfit e m' [= <-] Hrep Hf. rewrite poll_plain_eq by done.
    destruct fuel as [|fuel]; [lia|].
    rewrite (poll_loop_after_init E _ _ _ _ _ Hi), poll_loop_S.
    rewrite (ping_cases E _ m) by done. cbn [trace] in *. by rewrite Hrep.
Qed.

Lemma poll_raises_at_failed_ping_witness :
  (poll down_env 3 false 1 (Some 60) sample_state).1
    = Raise ConnectionExhausted.
Proof.
  destruct (poll_raises_at_failed_ping down_env 3 1 (Some 60) sample_state)
    as (_ & _ & H).
  - right. vm_compute. eauto.
  - apply (H ltac:(right; by vm_compute) ConnectionExhausted
             (Messaging.Build "http://server" "xprv" 5 30 false)).
    + reflexivity.
    + reflexivity.
    + lia.
Defined.

(** X7: [poll] with [register_address] set, once it has its stop time,
    registers before it pings and does not catch what the registration
    raises, not even [AddressAlreadyRegistered]: the poll ends with that
    exception after the one request to register and without a ping. *)
Theorem poll_registration_refused (E : Env) (fuel : nat) (delay : N)
    (limit : option Z) (s : State) (a : string) (e : exn) :
  stop_time_fits (clock s) limit →
  ready s → cfg (self s) !! "payout_address"%string = Some a →
  (∀ tr m a, reply E (tr ++ [Sent m (Register a)]) = Some e) →
  let r := poll E fuel true delay limit s in
  r = register E s ∧ r.1 = Raise e ∧
  count is_register (trace r.2) = S (count is_register (trace s)) ∧
  count is_ping (trace r.2) = count is_ping (trace s).
Proof.
  intros Hfit Hr Ha Hrep r.
  destruct (init_messenger_ready E s Hr) as (m & evs & Hi & Hev).
  assert (register E s =
            (Raise e, mkState (with_messenger (Some m) (self s))
               (clock s + Z.of_N (lag E ((trace s ++ evs) ++
                                          [Sent m (Register a)])))
               ((trace s ++ evs) ++ [Sent m (Register a)]) (cfg_file s)))
    as Hreg.
  { rewrite (register_after_init E _ _ Hi).
    by rewrite (register_refused E _ m a e). }
  assert (r = register E s) as ->.
  { unfold r. rewrite poll_fit_eq by done. cbv zeta. by rewrite Hreg. }
  rewrite Hreg. split_and!; [done..| |]; cbn [snd trace];
    rewrite !count_app, (count_news evs m) by (done || intuition);
    simpl; lia.
Qed.

Lemma poll_registration_refused_witness :
  (poll registered_env 3 true 1 (Some 60) sample_state).1
    = Raise AddressAlreadyRegistered.
Proof.
  destruct (poll_registration_refused registered_env 3 1 (Some 60)
              sample_state "1payout" AddressAlreadyRegistered)
    as (_ & H & _).
  - right. by vm_compute.
  - right. vm_compute. eauto.
  - reflexivity.
  - intros tr m a. unfold registered_env, reply. by rewrite last_snoc.
  - exact H.
Defined.

Lemma count_height_reports (m : Messaging.t) (l : list Z) :
  count is_height ((λ h, Sent m (Height h)) <$> l) = length l.
Proof.
  induction l as [|h l IH]; [done|].
  rewrite fmap_cons. cbn [count is_height length]. by rewrite IH.
Qed.

Lemma count_slept_turns m d n : count is_slept (turns m d n) = n.
Proof.
  induction n as [|n IH]; [done|]. rewrite turns_S. simpl. by rewrite IH.
Qed.

(** X8: a limit below zero, if it is not so far below that the stop
    time is no [datetime], puts the stop time in the past: [poll] pings
    once and returns [True] without a sleep. *)
Theorem poll_negative_limit (E : Env) (fuel : nat) (delay : N) (limit : Z)
    (s : State) :
  limit < 0 → representable (clock s) limit →
  (0 < fuel)%nat → ready s → answers E is_ping →
  let s1 := (_init_messenger E s).2 in
  let r := poll E fuel false delay (Some limit) s in
  r.1 = Ret true ∧
  ∃ m, messenger (self s1) = Some m ∧
       trace r.2 = trace s1 ++ [Sent m Ping].
Proof.
  intros Hl Hrep Hf Hr Hans s1 r. unfold r, s1. clear r s1.
  rewrite poll_Some_eq by (done || lia).
  destruct (init_messenger_ready E s Hr) as (m & evs & Hi & _).
  destruct fuel as [|fuel]; [lia|].
  rewrite (poll_loop_after_init E _ _ _ _ _ Hi), Hi, poll_loop_Some_S.
  rewrite (ping_reliable E _ m) by done. cbn [snd clock trace].
  match goal with |- context [?a <=? ?b] =>
    destruct (Z.leb_spec a b) as [_|Hlt] end.
  - split; [done|]. by exists m.
  - unfold seconds in Hlt. lia.
Qed.

Lemma poll_negative_limit_witness :
  (poll sample_env 1 false 1 (Some (-5))
     (mkState sample_client (seconds 63000000000) [] sample_cfg)).1
    = Ret true.
Proof.
  destruct (poll_negative_limit sample_env 1 1 (-5)
              (mkState sample_client (seconds 63000000000) [] sample_cfg))
    as [H _].
  - lia.
  - by vm_compute.
  - lia.
  - right. vm_compute. eauto.
  - intros tr ev _. reflexivity.
  - exact H.
Defined.

(** X9: with a limit whose stop time is a [datetime], a delay of a
    second or more that [time.sleep] takes, a server that answers and
    sleeps that are taken, [poll] ends: it returns [True] at or after
    the stop time, after at most [limit / delay + 2] pings, one sleep
    between two pings, and every sleep takes its [delay] seconds at
    least. *)
Theorem poll_terminates (E : Env) (fuel : nat) (delay : N) (limit : Z)
    (s : State) :
  limit ≠ 0 → representable (clock s) limit →
  (0 < delay)%N → sleepable delay →
  ready s → answers E is_poll →
  (Z.to_nat (limit `div` Z.of_N delay) + 2 ≤ fuel)%nat →
  let r := poll E fuel false delay (Some limit) s in
  r.1 = Ret true ∧ clock s + seconds limit ≤ clock r.2 ∧
  ∃ n, count is_ping (trace r.2) = (count is_ping (trace s) + S n)%nat ∧
       count is_slept (trace r.2) = (count is_slept (trace s) + n)%nat ∧
       (n ≤ Z.to_nat (limit `div` Z.of_N delay) + 1)%nat ∧
       clock s + Z.of_nat n * seconds (Z.of_N delay) ≤ clock r.2.
Proof.
  intros Hl Hrep Hd Hsleep Hr Hpoll Hfuel r. unfold r. clear r.
  destruct (answers_poll E Hpoll) as [Hans Hsl].
  rewrite poll_Some_eq by done.
  set (stop := clock s + seconds limit).
  set (d := Z.of_N delay) in *. assert (0 < d) as Hd' by lia.
  set (q := limit `div` d) in *.
  pose proof (Z.mul_succ_div_gt limit d Hd') as Hq. fold q in Hq.
  destruct (init_messenger_ready E s Hr) as (m & evs & Hi & Hev).
  destruct fuel as [|fuel]; [lia|].
  rewrite (poll_loop_after_init E _ _ _ _ _ Hi).
  set (s1 := mkState (with_messenger (Some m) (self s)) (clock s)
               (trace s ++ evs) (cfg_file s)) in *.
  assert (messenger (self s1) = Some m) as Hm by done.
  assert ((poll_loop E (S fuel) (Some stop) delay s1).1 = Ret true) as Hret.
  { apply (poll_loop_Some_returns E _ _ _ _ m); [done|done|done|lia|].
    unfold stop, seconds. cbn [clock s1]. fold d.
    replace (S fuel - 1)%nat with fuel by lia.
    assert (limit ≤ Z.of_nat fuel * d) as Hlim.
    { clear -Hfuel Hq Hd'. clearbody d q.
      destruct (decide (0 ≤ q)) as [Hq0|Hq0].
      - assert (Z.succ q ≤ Z.of_nat fuel) as Hqf by lia.
        pose proof (Z.mul_le_mono_nonneg_l _ _ d ltac:(lia) Hqf). lia.
      - pose proof (Z.mul_nonneg_nonpos d (Z.succ q) ltac:(lia) ltac:(lia)).
        pose proof (Z.mul_nonneg_nonneg (Z.of_nat fuel) d ltac:(lia)
                      ltac:(lia)).
        lia. }
    lia. }
  pose proof (poll_loop_Some_shape E (S fuel) stop delay s1 m true Hm Hret)
    as Hshape.
  pose proof (poll_loop_elapsed E (S fuel) (Some stop) delay s1 m Hm
                Hsleep Hsl) as Hel.
  cbv zeta in Hshape, Hel.
  destruct (poll_loop E (S fuel) (Some stop) delay s1) as [rr s2].
  cbn [fst snd] in *. subst rr.
  destruct Hshape as (_ & Hstop & n & _ & Ht & _ & Hpos).
  assert (count is_slept evs = O ∧ count is_ping evs = O) as [Hev1 Hev2].
  { destruct Hev as [[_ ->]|(_ & -> & _)]; done. }
  assert (count is_ping (trace s2) = (count is_ping (trace s) + S n)%nat)
    as Hpings.
  { rewrite Ht. cbn [trace s1].
    rewrite !count_app, count_pings_turns, Hev2. simpl. lia. }
  assert (count is_slept (trace s2) = (count is_slept (trace s) + n)%nat)
    as Hsleeps.
  { rewrite Ht. cbn [trace s1].
    rewrite !count_app, count_slept_turns, Hev1. simpl. lia. }
  rewrite Hsleeps in Hel. cbn [trace clock s1] in Hel.
  rewrite count_app, Hev1 in Hel. fold d in Hel, Hpos.
  split_and!; [done..|]. exists n. split_and!; [done|done| |].
  - destruct (decide (n = O)) as [->|Hn]; [lia|].
    specialize (Hpos ltac:(lia)).
    assert (clock s ≤ clock (ping E s1).2) as Hping.
    { rewrite (ping_reliable E s1 m) by done. simpl. lia. }
    unfold stop, seconds in Hpos.
    assert (Z.of_nat (n - 1) ≤ q) as Hle.
    { apply Z.div_le_lower_bound; [done|]. nia. }
    lia.
  - rewrite !Nat2Z.inj_add, !Z.mul_add_distr_r in Hel. lia.
Qed.

Lemma poll_terminates_witness :
  (poll sample_env 7 false 2 (Some 10) sample_state).1 = Ret true.
Proof.
  destruct (poll_terminates sample_env 7 2 10 sample_state) as [H _].
  - lia.
  - by vm_compute.
  - lia.
  - by vm_compute.
  - right. vm_compute. eauto.
  - intros tr ev _. reflexivity.
  - vm_compute. lia.
  - exact H.
Defined.

(** ** Building: the reports and their failures *)

Section BuildMore.
Context (E : Env).

(** The callbacks of a build report the due heights in the builder's
    order, up to the first report that fails. *)
Lemma generate_prefix N m l s :
  messenger (self s) = Some m → N ≠ 0 → SHARD_SIZE E ≠ 0 →
  in_float_range (max_size (self s)) (SHARD_SIZE E) →
  let r := generate
             (λ h seed file_hash, _on_generate_shard E h seed file_hash N)
             l s in
  let dues := filter (due N (last_height E (self s))) (l.*1.*1) in
  self r.2 = self s ∧
  ((r.1 = Ret () ∧
    trace r.2 = trace s ++ ((λ h, Sent m (Height h)) <$> dues)) ∨
   (∃ e k h, r.1 = Raise e ∧ dues !! k = Some h ∧
      trace r.2 = trace s ++ ((λ h, Sent m (Height h)) <$> take (S k) dues) ∧
      reply E (trace r.2) = Some e)).
Proof.
  intros Hm HN HS Hf. revert s Hm Hf.
  induction l as [|[[h seed] file_hash] l IH]; intros s Hm Hf.
  - simpl. split; [done|]. left. by rewrite app_nil_r.
  - rewrite !fmap_cons. cbn [generate fst]. unfold mbind, M_bind.
    rewrite (on_generate_shard_eq E s m) by done.
    cbv zeta. rewrite filter_cons. case_decide as Hd.
    + unfold request.
      destruct (reply E (trace s ++ [Sent m (Height h)])) as [e|] eqn:Hrep.
      * split; [done|]. right. exists e, O, h. by split_and!.
      * match goal with |- context [generate ?f l ?s1] =>
          generalize (IH s1 Hm Hf); destruct (generate f l s1) as [r1 s2] end.
        cbv zeta. cbn [fst snd self trace].
        intros [Hs Hcases].
        destruct Hcases as [(-> & Ht)|(e & k & h' & -> & Hk & Ht & Hrp)].
        -- split; [done|]. left. split; [done|].
           by rewrite Ht, <- app_assoc.
        -- split; [done|]. right. exists e, (S k), h'.
           split_and!; [done|done| |done].
           rewrite Ht, <- app_assoc. done.
    + by apply IH.
Qed.

(** The builder: its call, then the callbacks of a whole build and its
    result, or the callbacks made before it fails and its exception. *)
Lemma bldr_build_eq cb cleanup rebuild cores s :
  let built := Built cleanup rebuild cores in
  let failure := reply E (trace s ++ [built]) in
  let s1 := mkState (self s) (clock s + Z.of_N (lag E (trace s ++ [built])))
              (trace s ++ [built]) (cfg_file s) in
  bldr_build E cb cleanup rebuild cores s =
    match generate cb (builder_calls E failure) s1 with
    | (Ret _, s2) => (match failure with
                      | Some e => Raise e
                      | None => Ret (generated E)
                      end, s2)
    | (Raise e', s2) => (Raise e', s2)
    | (Running, s2) => (Running, s2)
    end.
Proof.
  cbv zeta. unfold bldr_build, request, builder_calls, mbind, M_bind.
  by destruct (reply E _).
Qed.


End BuildMore.

(** X10: [build] calls the builder once and reports the due heights
    among the shards the builder calls back for, in the builder's order
    whatever that is: the shards of a whole build, or those generated by
    the time the builder fails.  When every report went through, [build]
    returns what the builder returns or raises what the builder raises;
    a report that fails ends the build with its exception at once, and
    no later height is reported. *)
Theorem build_reports (E : Env) (s : State) (cleanup rebuild : bool)
    (interval cores : positive) (a : string) :
  ready s → cfg (self s) !! "payout_address"%string = Some a →
  SHARD_SIZE E ≠ 0 → in_float_range (max_size (self s)) (SHARD_SIZE E) →
  let s1 := (_init_messenger E s).2 in
  let r := build E cleanup rebuild interval cores s in
  let built := Built cleanup rebuild cores in
  let failure := reply E (trace s1 ++ [built]) in
  let dues := due_heights E (self s) interval (builder_calls E failure) in
  ∃ m, messenger (self s1) = Some m ∧
    ((r.1 = match failure with
            | Some e => Raise e
            | None => Ret (generated E)
            end ∧
      trace r.2 = trace s1 ++ built :: ((λ h, Sent m (Height h)) <$> dues)) ∨
     (∃ e k h, r.1 = Raise e ∧ dues !! k = Some h ∧
        trace r.2 = trace s1 ++
          built :: ((λ h, Sent m (Height h)) <$> take (S k) dues) ∧
        reply E (trace r.2) = Some e)).
Proof.
  intros Hr Ha HS Hf. cbv zeta. unfold due_heights.
  destruct (init_messenger_ready E s Hr) as (m & evs & Hi & _).
  rewrite Hi. cbn [snd]. exists m. split; [done|].
  destruct (build E cleanup rebuild interval cores s) as [r s2] eqn:Hb.
  revert Hb. unfold build, mbind at 1 2, M_bind at 1 2.
  rewrite Hi. unfold cfg_get. cbn [self cfg with_messenger]. rewrite Ha.
  rewrite bldr_build_eq. cbn [trace self clock cfg_file].
  match goal with |- context [generate ?f ?l ?s1] =>
    generalize (generate_prefix E (Z.pos interval) m l s1 eq_refl
                  ltac:(lia) HS Hf);
    destruct (generate f l s1) as [r1 s3] end.
  cbv zeta. cbn [fst snd self trace].
  intros [Hs Hcases].
  destruct Hcases as [(-> & Ht)|(e & k & h & -> & Hk & Ht & Hrp)];
    intros [= <- <-].
  - left. split; [done|]. by rewrite Ht, <- app_assoc.
  - right. exists e, k, h. split_and!; [done|done| |done].
    by rewrite Ht, <- app_assoc.
Qed.

Lemma build_reports_witness :
  ∃ m, messenger (self (_init_messenger sample_env sample_state).2) = Some m ∧
    (build sample_env false false 4 1 sample_state).1 = Ret 10 ∧
    trace (build sample_env false false 4 1 sample_state).2
      = trace (_init_messenger sample_env sample_state).2
          ++ Built false false 1
             :: ((λ h, Sent m (Height h)) <$> [1; 4; 8; 10]).
Proof.
  destruct (build_reports sample_env sample_state false false 4 1 "1payout")
    as (m & Hm & [[H1 H2]|(e & k & h & H & _)]).
  - right. vm_compute. eauto.
  - reflexivity.
  - vm_compute. discriminate.
  - vm_compute. discriminate.
  - exists m. split_and!; [exact Hm|exact H1|exact H2].
  - discriminate H.
Defined.

(** ** Farming: what stops it *)

(** X11: [farm] catches [AddressAlreadyRegistered] and nothing else:
    any other exception of the registration ends [farm] with that
    exception, after the one request to register, before the builder is
    called and before any ping. *)
Theorem farm_fatal_registration (E : Env) (fuel : nat) (s : State)
    (a : string) (e : exn) :
  ready s → cfg (self s) !! "payout_address"%string = Some a →
  (∀ tr m a, reply E (tr ++ [Sent m (Register a)]) = Some e) →
  e ≠ AddressAlreadyRegistered →
  let r := farm E fuel s in
  r.1 = Raise e ∧
  count is_register (trace r.2) = S (count is_register (trace s)) ∧
  count is_built (trace r.2) = count is_built (trace s) ∧
  count is_ping (trace r.2) = count is_ping (trace s).
Proof.
  intros Hr Ha Hrep He r. unfold r. clear r.
  destruct (init_messenger_ready E s Hr) as (m & evs & Hi & Hev).
  destruct (farm E fuel s) as [r s2] eqn:Hf. revert Hf.
  unfold farm, mbind at 1 2 3, M_bind at 1 2 3. rewrite Hi.
  unfold set_messenger_retry_limit at 1. cbn [self messenger with_messenger].
  unfold try_except_pass, mbind at 1, M_bind at 1.
  match goal with |- context [register E ?s1] =>
    rewrite (register_refused E s1 _ a e eq_refl Ha (Hrep _ _ _)) end.
  case_decide; [done|]. intros [= <- <-]. cbn [fst snd trace].
  split; [done|]. rewrite !count_app.
  rewrite !(count_news evs m) by (done || intuition). simpl. lia.
Qed.

Lemma farm_fatal_registration_witness :
  (farm down_env 3 sample_state).1 = Raise ConnectionExhausted.
Proof.
  destruct (farm_fatal_registration down_env 3 sample_state "1payout"
              ConnectionExhausted) as [H _].
  - right. vm_compute. eauto.
  - reflexivity.
  - reflexivity.
  - discriminate.
  - exact H.
Defined.



(** ** What only [config] may change *)

Section Keeps.
Context (E : Env).

Lemma keeps_ret {A} (a : A) : keeps (mret a).
Proof. by intros s. Qed.

Lemma keeps_running {A} : keeps (running : M A).
Proof. by intros s. Qed.

Lemma keeps_datetime_now : keeps datetime_now.
Proof. by intros s. Qed.

Lemma keeps_timedelta secs : keeps (timedelta secs).
Proof. intros s. unfold timedelta. by destruct (_ && _). Qed.

Lemma keeps_datetime_add t d : keeps (datetime_add t d).
Proof. intros s. unfold datetime_add. by destruct (_ && _). Qed.

Lemma keeps_time_sleep secs : keeps (time_sleep E secs).
Proof.
  intros s. unfold time_sleep.
  destruct (secs <? 0); [done|]. destruct (SLEEP_MAX <? secs); [done|].
  by destruct (reply E _).
Qed.

Lemma keeps_bind {A B} (m : M A) (f : A → M B) :
  keeps m → (∀ a, keeps (f a)) → keeps (m ≫= f).
Proof.
  intros Hm Hf s. specialize (Hm s). unfold mbind, M_bind.
  destruct (m s) as [[a|e|] s1]; simpl in *; [|done..].
  by rewrite Hf.
Qed.

Lemma keeps_try_except_pass e body :
  keeps body → keeps (try_except_pass e body).
Proof.
  intros Hb s. specialize (Hb s). unfold try_except_pass.
  destruct (body s) as [[a|e'|] s1]; simpl in *; [done| |done].
  by case_decide.
Qed.

Lemma keeps_request ev : keeps (request E ev).
Proof. intros s. unfold request. by destruct (reply E _). Qed.

Lemma keeps_send call : keeps (send E call).
Proof.
  intros s. unfold send. destruct (messenger (self s)); [|done].
  apply keeps_request.
Qed.

Lemma keeps_init_messenger : keeps (_init_messenger E).
Proof.
  intros s. unfold _init_messenger.
  destruct (messenger (self s)); [done|].
  by destruct (cfg (self s) !! _).
Qed.

Lemma keeps_set_messenger_retry_limit v : keeps (set_messenger_retry_limit v).
Proof.
  intros s. unfold set_messenger_retry_limit.
  by destruct (messenger (self s)).
Qed.

Lemma keeps_cfg_get key : keeps (cfg_get key).
Proof. intros s. unfold cfg_get. by destruct (cfg (self s) !! key). Qed.

Lemma keeps_register : keeps (register E).
Proof.
  unfold register.
  apply keeps_bind; [apply keeps_init_messenger|intros _].
  apply keeps_bind; [apply keeps_cfg_get|intros a].
  apply keeps_bind; [apply keeps_send|intros _]. apply keeps_ret.
Qed.

Lemma keeps_ping : keeps (ping E).
Proof.
  unfold ping.
  apply keeps_bind; [apply keeps_init_messenger|intros _].
  apply keeps_bind; [apply keeps_send|intros _]. apply keeps_ret.
Qed.

Lemma keeps_poll_loop fuel stop_time delay :
  keeps (poll_loop E fuel stop_time delay).
Proof.
  induction fuel as [|fuel IH]; [apply keeps_running|].
  intros s. rewrite poll_loop_S. pose proof (keeps_ping s) as Hp.
  destruct (ping E s) as [[b|e|] s1]; simpl in *; [|done..].
  destruct (match stop_time with Some t => _ | None => _ end); [done|].
  pose proof (keeps_time_sleep (Z.of_N delay) s1) as Hs.
  destruct (time_sleep E _ s1) as [[u|e|] s2]; simpl in *;
    [rewrite IH|..]; congruence.
Qed.

Lemma keeps_poll fuel register_address delay limit :
  keeps (poll E fuel register_address delay limit).
Proof.
  unfold poll. apply keeps_bind.
  - destruct limit; [destruct (truthy_int _)|]; try apply keeps_ret.
    apply keeps_bind; [apply keeps_datetime_now|intros now].
    apply keeps_bind; [apply keeps_timedelta|intros d].
    apply keeps_bind; [apply keeps_datetime_add|intros; apply keeps_ret].
  - intros stop_time.
    apply keeps_bind; [|intros _; apply keeps_poll_loop].
    destruct register_address; [|apply keeps_ret].
    apply keeps_bind; [apply keeps_register|intros; apply keeps_ret].
Qed.

Lemma keeps_on_generate_shard h seed file_hash interval :
  keeps (_on_generate_shard E h seed file_hash interval).
Proof.
  intros s. unfold _on_generate_shard.
  destruct (interval =? 0); [done|]. destruct (int_truediv _ _); [done|].
  destruct (_ || _); [apply keeps_send|done].
Qed.

Lemma keeps_generate f l :
  (∀ h seed file_hash, keeps (f h seed file_hash)) → keeps (generate f l).
Proof.
  intros Hf. induction l as [|[[h seed] file_hash] l IH]; [apply keeps_ret|].
  cbn [generate]. by apply keeps_bind.
Qed.

Lemma keeps_build cleanup rebuild interval cores :
  keeps (build E cleanup rebuild interval cores).
Proof.
  unfold build.
  apply keeps_bind; [apply keeps_init_messenger|intros _].
  apply keeps_bind; [apply keeps_cfg_get|intros _].
  intros s. rewrite bldr_build_eq. cbv zeta.
  match goal with |- context [generate ?f ?l ?s1] =>
    pose proof (keeps_generate f l
                  (λ h seed file_hash,
                     keeps_on_generate_shard h seed file_hash _) s1) as Hg;
    destruct (generate f l s1) as [[u|e|] s2] end; exact Hg.
Qed.

Lemma keeps_farm fuel : keeps (farm E fuel).
Proof.
  unfold farm.
  apply keeps_bind; [apply keeps_init_messenger|intros _].
  apply keeps_bind; [apply keeps_set_messenger_retry_limit|intros _].
  apply keeps_bind.
  { apply keeps_try_except_pass, keeps_bind;
      [apply keeps_register|intros; apply keeps_ret]. }
  intros _. apply keeps_bind; [apply keeps_build|intros _].
  apply keeps_bind; [apply keeps_poll|intros; apply keeps_ret].
Qed.

Lemma keeps_run fuel op : no_config op → keeps (run E fuel op).
Proof.
  intros Hop. destruct op; simpl in *; try done;
    try (apply keeps_bind; [|intros; apply keeps_ret]).
  - apply keeps_register.
  - apply keeps_ping.
  - apply keeps_poll.
  - apply keeps_build.
  - apply keeps_farm.
Qed.

End Keeps.

(** X13: only [config] changes the configuration.  Whatever [register],
    [ping], [poll], [build] and [farm] do, in any number and order and
    whether they fail or not, the configuration dictionary, the saved
    configuration and the attributes of the client other than its
    messenger (so its own retry limit and delay) stay as they were. *)
Theorem only_config_configures (E : Env) (fuel : nat) (ops : list Op)
    (s : State) :
  Forall no_config ops →
  let s' := run_all E fuel ops s in
  belongings s' = belongings s ∧
  cfg (self s') = cfg (self s) ∧ cfg_file s' = cfg_file s ∧
  retry_limit (self s') = retry_limit (self s) ∧
  retry_delay (self s') = retry_delay (self s) ∧
  max_size (self s') = max_size (self s) ∧ url (self s') = url (self s).
Proof.
  intros Hops s'.
  assert (belongings s' = belongings s) as Hb.
  { unfold s'. clear s'. revert s.
    induction Hops as [|op ops Hop _ IH]; intros s; [done|].
    simpl. rewrite IH. by apply keeps_run. }
  split; [done|]. split_and!.
  - exact (f_equal (λ b, cfg b.1) Hb).
  - exact (f_equal snd Hb).
  - exact (f_equal (λ b, retry_limit b.1) Hb).
  - exact (f_equal (λ b, retry_delay b.1) Hb).
  - exact (f_equal (λ b, max_size b.1) Hb).
  - exact (f_equal (λ b, url b.1) Hb).
Qed.

Lemma only_config_configures_witness :
  cfg (self (run_all registered_env 2 [OpPing; OpFarm; OpRegister]
               sample_state)) = sample_cfg ∧
  retry_limit (self (run_all registered_env 2 [OpPing; OpFarm; OpRegister]
                       sample_state)) = 5.
Proof.
  destruct (only_config_configures registered_env 2
              [OpPing; OpFarm; OpRegister] sample_state)
    as (_ & H1 & _ & H2 & _).
  - repeat constructor.
  - split; [exact H1|exact H2].
Defined.

(** ** How many reports a build makes *)

Section ReportCount.

Lemma div_succ (k N : Z) :
  0 ≤ k → 0 < N →
  (k + 1) `div` N = k `div` N + (if (k + 1) `mod` N =? 0 then 1 else 0).
Proof.
  intros Hk HN.
  pose proof (Z.div_mod k N ltac:(lia)) as Hd.
  pose proof (Z.mod_pos_bound k N HN) as Hm.
  destruct (decide (k `mod` N + 1 = N)) as [He|He].
  - assert ((k + 1) `mod` N = 0) as ->.
    { symmetry. apply (Z.mod_unique_pos _ _ (k `div` N + 1)); lia. }
    simpl. symmetry. apply (Z.div_unique_pos _ _ _ 0); lia.
  - assert ((k + 1) `mod` N = k `mod` N + 1) as ->.
    { symmetry. apply (Z.mod_unique_pos _ _ (k `div` N)); lia. }
    destruct (Z.eqb_spec (k `mod` N + 1) 0); [lia|].
    rewrite Z.add_0_r. symmetry.
    apply (Z.div_unique_pos _ _ _ (k `mod` N + 1)); lia.
Qed.

(** The heights up to [k] that are the first or a multiple of [N]. *)
Lemma first_and_multiples (N T : Z) (k : nat) :
  0 < N → Z.of_nat k < T →
  Z.of_nat (length (filter (due N T) (seqZ 1 (Z.of_nat k)))) =
    if decide (k = O) then 0
    else Z.of_nat k `div` N + (if N =? 1 then 0 else 1).
Proof.
  intros HN. induction k as [|k IH]; intros HT; [done|].
  rewrite seqZ_S, filter_app, length_app, Nat2Z.inj_add, IH by lia.
  rewrite filter_cons, filter_nil.
  replace (Z.of_nat (S k)) with (Z.of_nat k + 1) by lia.
  rewrite (div_succ (Z.of_nat k) N) by lia.
  replace (1 + Z.of_nat k) with (Z.of_nat k + 1) by lia.
  assert (due N T (Z.of_nat k + 1)
            ↔ k = O ∨ (Z.of_nat k + 1) `mod` N = 0) as Hiff.
  { unfold due. split.
    - intros [?|[?|?]]; [left|by right|]; lia.
    - intros [?|?]; [left; lia|by right; left]. }
  assert (N = 1 ↔ 1 `mod` N = 0) as H1.
  { split; [by intros ->|]. intros H.
    destruct (decide (N = 1)); [done|]. rewrite Z.mod_1_l in H; lia. }
  destruct (decide (S k = O)) as [?|_]; [lia|].
  destruct (decide (k = O)) as [->|Hk].
  - change (Z.of_nat 0 + 1) with 1 in *. rewrite Z.div_0_l by lia.
    case_decide as Hd; [|exfalso; apply Hd, Hiff; by left].
    destruct (Z.eqb_spec N 1), (Z.eqb_spec (1 `mod` N) 0); simpl length;
      try lia; exfalso; intuition.
  - case_decide as Hd; rewrite Hiff in Hd;
      destruct (Z.eqb_spec ((Z.of_nat k + 1) `mod` N) 0); simpl length;
      try lia; exfalso; intuition.
Qed.

Lemma due_count (N T : Z) :
  0 < N → 1 ≤ T →
  Z.of_nat (length (filter (due N T) (seqZ 1 T))) =
    (T - 1) `div` N + 1 + (if (N =? 1) || (T =? 1) then 0 else 1).
Proof.
  intros HN HT.
  set (k := Z.to_nat (T - 1)).
  assert (seqZ 1 T = seqZ 1 (Z.of_nat k) ++ [T]) as ->.
  { rewrite <- (Z2Nat.id T) at 1 by lia.
    replace (Z.to_nat T) with (S k) by lia. rewrite seqZ_S.
    do 2 f_equal. lia. }
  rewrite filter_app, length_app, Nat2Z.inj_add.
  rewrite first_and_multiples by lia.
  rewrite filter_cons, filter_nil.
  rewrite (decide_True (P := due N T T)) by (unfold due; lia).
  simpl length. replace (Z.of_nat k) with (T - 1) by lia.
  destruct (decide (k = O)) as [H0|H0].
  - assert (T = 1) as -> by lia. simpl. by rewrite orb_true_r.
  - destruct (Z.eqb_spec T 1); [lia|]. rewrite orb_false_r. lia.
Qed.

End ReportCount.

(** X14: a build of [T] heights with interval [N] reports
    [(T - 1) / N + 1] heights to the server, and one more for the first
    height when [N] is not 1 and there is more than one height. *)
Theorem checkpoint_count (E : Env) (s : State) (m : Messaging.t) (N : Z) :
  messenger (self s) = Some m → 0 < N → SHARD_SIZE E ≠ 0 →
  answers E is_height →
  let T := last_height E (self s) in
  1 ≤ T →
  let r := checkpoints E N T s in
  r.1 = Ret () ∧
  Z.of_nat (count is_height (trace r.2)) =
    Z.of_nat (count is_height (trace s)) +
    (T - 1) `div` N + 1 + (if (N =? 1) || (T =? 1) then 0 else 1).
Proof.
  intros Hm HN HS Hans T HT r.
  assert (in_float_range (max_size (self s)) (SHARD_SIZE E)) as Hf.
  { intros Ht. unfold T, last_height, int_truediv in HT.
    rewrite Ht in HT. lia. }
  destruct (checkpoints_run E s m N
              ((λ h, (h, EmptyString, EmptyString)) <$> seqZ 1 T))
    as (H1 & _ & _ & H4); [done|lia|done|done|done|].
  fold (checkpoints E N T) in H1, H4. fold T r in H1, H4.
  rewrite <- !list_fmap_compose, list_fmap_id in H4.
  split; [done|].
  rewrite H4, count_app, Nat2Z.inj_add, count_height_reports.
  rewrite due_count by done. lia.
Qed.

Lemma checkpoint_count_witness :
  count is_height (trace (checkpoints sample_env 4 10 sample_ready).2)
    = 4%nat.
Proof.
  destruct (checkpoint_count sample_env sample_ready
              (Messaging.Build "http://server" "xprv" 5 30 false) 4)
    as [_ H].
  - reflexivity.
  - lia.
  - vm_compute. discriminate.
  - intros tr ev _. reflexivity.
  - vm_compute. discriminate.
  - apply Nat2Z.inj. etransitivity; [exact H|]. reflexivity.
Defined.

(** ** Configuring: a save that fails, and what [register] reads *)

Section ConfigMore.
Context (E : Env).

(** What [config] has done once the messenger is there and the
    arguments are stored: the save, if any, and the final lookup. *)
Lemma config_run set_wallet set_payout_address s :
  acceptable E set_wallet set_payout_address → ready s →
  let d := configured set_wallet set_payout_address (cfg (self s)) in
  ∃ m evs,
    _init_messenger E s =
      (Ret (), mkState (with_messenger (Some m) (self s)) (clock s)
                 (trace s ++ evs) (cfg_file s)) ∧
    config E set_wallet set_payout_address s =
      ((if truthy_str set_wallet || truthy_str set_payout_address
        then config_save E else mret ()) ;;
       cfg_get "payout_address" ;;
       self_cfg)
        (mkState (with_cfg d (with_messenger (Some m) (self s))) (clock s)
           (trace s ++ evs) (cfg_file s)).
Proof.
  intros Hacc Hr d.
  destruct (init_messenger_ready E s Hr) as (m & evs & Hi & _).
  exists m, evs. split; [done|].
  rewrite config_after_checks by done.
  unfold mbind at 1, M_bind at 1. rewrite Hi.
  unfold mbind at 1, M_bind at 1. rewrite cfg_set_if_eq.
  unfold mbind at 1, M_bind at 1. rewrite cfg_set_if_eq.
  cbn [self cfg with_self with_cfg with_messenger clock trace cfg_file].
  done.
Qed.

End ConfigMore.



(** X16: what [config] stores is what [register] sends: after
    [config] with a payout address that is valid and not empty, the next
    [register] asks the server to register that address, whether or not
    the configuration could be saved. *)
Theorem config_then_register (E : Env) (s : State)
    (set_wallet : option string) (a : string) :
  acceptable E set_wallet (Some a) → ready s → a ≠ EmptyString →
  let s2 := (config E set_wallet (Some a) s).2 in
  ∃ m, messenger (self s2) = Some m ∧
       trace (register E s2).2 = trace s2 ++ [Sent m (Register a)].
Proof.
  intros Hacc Hr Ha s2.
  destruct (config_run E set_wallet (Some a) s Hacc Hr)
    as (m & evs & Hi & Hc).
  set (d := configured set_wallet (Some a) (cfg (self s))) in *.
  assert (d !! "payout_address"%string = Some a) as Hd.
  { unfold d, configured, stored at 2, truthy_str.
    destruct (String.eqb_spec a EmptyString) as [|_]; [done|]. simpl.
    unfold stored. destruct set_wallet as [w|]; [|apply lookup_insert_eq].
    destruct (truthy_str _); [|apply lookup_insert_eq].
    by rewrite lookup_insert_ne, lookup_insert_eq. }
  assert (messenger (self s2) = Some m ∧ cfg (self s2) = d) as [Hm Hcfg].
  { unfold s2. rewrite Hc. unfold mbind, M_bind, config_save, request, cfg_get.
    unfold self_cfg, with_cfg_file.
    destruct (truthy_str set_wallet || truthy_str (Some a)); cbn;
      [destruct (reply E _); cbn|]; rewrite ?Hd; by cbn. }
  exists m. split; [done|].
  unfold register, mbind, M_bind.
  rewrite (init_messenger_Some E s2 m) by done.
  unfold cfg_get. rewrite Hcfg, Hd, (send_Some E s2 m) by done.
  rewrite <- (request_trace E (Sent m (Register a)) s2).
  by destruct (request E _ s2) as [[]].
Qed.

Lemma config_then_register_witness :
  ∃ m, trace (register sample_env
                (config sample_env None (Some "1payout"%string)
                   sample_state).2).2
       = trace (config sample_env None (Some "1payout"%string)
                  sample_state).2 ++ [Sent m (Register "1payout")].
Proof.
  destruct (config_then_register sample_env sample_state None "1payout")
    as (m & _ & H).
  - split; [intros ? [= <-]; reflexivity|intros ? [=]].
  - right. vm_compute. eauto.
  - discriminate.
  - exists m. exact H.
Defined.
